(** * shapeshifter-dispatcher: dispatch, argument resolution and relay

    A shallow embedding of [src/main.go] (package main) and of the SOCKS5
    front-end (package pt_socks5, the Go source that follows the shell
    test and the module file in
    [src/shTests/TransparentTCP/testTCPOptimizerMinimizeDialDuration.sh],
    lines 85 to 410), with the properties the specification states about
    them.

    Conventions.
    - Go strings are [string]; a Go [map[string]T] is a [gmap string T];
      a nil map is the empty map (a lookup in a nil map finds nothing).
    - A Go [error] result is an [option]: [None] is [nil].
    - Calls of the logger and of the PT status protocol, writes to the
      terminal and launches of goroutines are recorded, in program order,
      in a list of events.
    - What the environment decides (the file system, the network, the
      packages the program imports) is a field of a record or a
      [Variable] of the section that needs it. *)

From Stdlib Require Import ZArith Ascii String List Bool Lia.
From stdpp Require Import base tactics option list strings pretty gmap.

Local Open Scope Z_scope.

(* ===================================================================== *)
(** ** The parts of the Go library the sources call *)
(* ===================================================================== *)

Module Go.

(** A Go [error] is an interface value; the model keeps its message. *)
Definition error := string.

(** [strings.Split(s, sep)] for a separator of one byte, which is all
    the sources use ([","]): the pieces between the separators, one
    more than there are separators. *)
Fixpoint strings_Split (s : string) (sep : ascii) : list string :=
  match s with
  | EmptyString => [EmptyString]
  | String c r =>
      if Ascii.eqb c sep then EmptyString :: strings_Split r sep
      else match strings_Split r sep with
           | h :: t => String c h :: t
           | [] => [String c EmptyString]
           end
  end.

(** The text before and after the first [sep] of [s], if there is one. *)
Fixpoint cut (s : string) (sep : ascii) : option (string * string) :=
  match s with
  | EmptyString => None
  | String c r =>
      if Ascii.eqb c sep then Some (EmptyString, r)
      else match cut r sep with
           | Some (a, b) => Some (String c a, b)
           | None => None
           end
  end.

(** [strings.SplitN(s, sep, 2)]: at most two pieces, the second one the
    unsplit rest. *)
Definition strings_SplitN2 (s : string) (sep : ascii) : list string :=
  match cut s sep with
  | Some (a, b) => [a; b]
  | None => [s]
  end.

(** [strings.ToLower] on the ASCII letters: the model is the function
    of the library on the strings of ASCII bytes, and leaves the bytes
    of the other characters as they are, where the library also maps the
    upper-case letters outside ASCII. *)
Definition lower (c : ascii) : ascii :=
  let n := N_of_ascii c in
  if ((65 <=? n) && (n <=? 90))%N then ascii_of_N (n + 32) else c.

Fixpoint strings_ToLower (s : string) : string :=
  match s with
  | EmptyString => EmptyString
  | String c r => String (lower c) (strings_ToLower r)
  end.

(** [strconv.Atoi] with a 64-bit [int]: an optional sign and at least
    one decimal digit.  The digits are read from the left into an
    unsigned 64-bit number, as [strconv.ParseUint] does: a byte that is
    no digit is a syntax error, and a digit the number has no room for
    is a range error, whatever follows it.  On a syntax error the
    integer returned is 0, on a range error it is the nearest bound of
    [int]. *)
Inductive NumError := ErrSyntax | ErrRange.

Definition maxInt : Z := 2 ^ 63 - 1.
Definition minInt : Z := - 2 ^ 63.
Definition maxUint : Z := 2 ^ 64 - 1.

Definition digit (c : ascii) : option Z :=
  let n := Z.of_N (N_of_ascii c) in
  if (48 <=? n) && (n <=? 57) then Some (n - 48) else None.

(** A string of decimal digits of any length, as the number it
    writes. *)
Fixpoint digits (acc : Z) (s : string) : option Z :=
  match s with
  | EmptyString => Some acc
  | String c r =>
      match digit c with
      | Some d => digits (10 * acc + d) r
      | None => None
      end
  end.

(** The loop of [strconv.ParseUint] for base 10 and 64 bits, with [n]
    the number read so far. *)
Fixpoint parseUint (n : Z) (s : string) : Z * option NumError :=
  match s with
  | EmptyString => (n, None)
  | String c r =>
      match digit c with
      | None => (0, Some ErrSyntax)
      | Some d =>
          if maxUint / 10 + 1 <=? n then (maxUint, Some ErrRange)
          else if maxUint <? 10 * n + d then (maxUint, Some ErrRange)
          else parseUint (10 * n + d) r
      end
  end.

Definition strconv_Atoi (s : string) : Z * option NumError :=
  let '(neg, body) :=
    match s with
    | String "-" r => (true, r)
    | String "+" r => (false, r)
    | _ => (false, s)
    end in
  match body with
  | EmptyString => (0, Some ErrSyntax)
  | _ =>
      match parseUint 0 body with
      | (_, Some ErrSyntax) => (0, Some ErrSyntax)
      | (un, _) =>
          if negb neg && (maxInt <? un) then (maxInt, Some ErrRange)
          else if neg && (- minInt <? un) then (minInt, Some ErrRange)
          else (if neg then - un else un, None)
      end
  end.

(** Whether a byte occurs in a string. *)
Fixpoint occurs (c : ascii) (s : string) : bool :=
  match s with
  | EmptyString => false
  | String d r => Ascii.eqb d c || occurs c r
  end.

(** [strings.Join(elems, sep)] for a separator of one byte. *)
Fixpoint strings_Join (elems : list string) (sep : ascii) : string :=
  match elems with
  | [] => EmptyString
  | [s] => s
  | s :: rest => s +:+ String sep (strings_Join rest sep)
  end.

(** How often a byte occurs in a string. *)
Fixpoint count (c : ascii) (s : string) : nat :=
  match s with
  | EmptyString => 0
  | String d r => (if Ascii.eqb d c then 1 else 0) + count c r
  end.

End Go.

(** [pt.Args] of the PT library: a key may carry several values. *)
Module Args.

Abbreviation t := (gmap string (list string)).

(** [args.Get(key)]: the first value of [key]; [ok] is false when the
    key is absent or carries no value. *)
Definition Get (args : t) (key : string) : string * bool :=
  match args !! key with
  | Some (v :: _) => (v, true)
  | _ => (EmptyString, false)
  end.

End Args.

(** The levels of the logger. *)
Inductive level := Debug | Info | Warn | Error | Fatal.

(** A message is kept as its format string and the arguments given for
    its verbs, unrendered.  An [error] made by [fmt.Errorf] or
    [errors.New] is such a message; so is the text an imported package
    puts in the errors it returns. *)
Record message := Msg {
  format : string;
  args : list string
}.

Definition error := message.

(** The double quote, for the format strings that contain one. *)
Definition dq : string := String (ascii_of_nat 34) EmptyString.

(* ===================================================================== *)
(** ** main.go *)
(* ===================================================================== *)

Module Dispatcher.

Definition dispatcherVersion : string := "0.0.7-dev".
Definition dispatcherLogFile : string := "dispatcher.log".

Definition getVersion : string := "dispatcher-" +:+ dispatcherVersion.

(** The [iota] constants of the proxy modes. *)
Definition socks5 : Z := 0.
Definition transparentTCP : Z := 1.
Definition transparentUDP : Z := 2.
Definition stunUDP : Z := 3.

Definition URL := string.

(** A resolved [net.TCPAddr]. *)
Record TCPAddr := {
  IP : string;
  Port : Z
}.

(** The options of one transport, [map[string]interface{}]: each value is
    kept as its text. *)
Abbreviation TransportOptions := (gmap string string).

(** [pt.Bindaddr]; [Options] is [None] for a nil map. *)
Record Bindaddr := {
  MethodName : string;
  Addr : TCPAddr;
  Options : option TransportOptions
}.

(** [pt.ServerInfo]; a nil address is [None], the zero value of the
    struct has no bind address, no addresses and an empty cookie path. *)
Record ServerInfo := {
  Bindaddrs : list Bindaddr;
  OrAddr : option TCPAddr;
  ExtendedOrAddr : option TCPAddr;
  AuthCookiePath : string
}.

Definition zeroServerInfo : ServerInfo :=
  {| Bindaddrs := []; OrAddr := None; ExtendedOrAddr := None;
     AuthCookiePath := EmptyString |}.

(** What the process does that can be observed from outside. *)
Inductive event :=
| Print (s : string)            (* println, fmt.Printf, fmt.Println *)
| Usage                         (* flag.Usage() *)
| SetLevel (s : string)         (* golog.SetLevel *)
| Log (l : level) (m : message) (* golog.Infof, Errorf, Error, Fatal, Fatalf *)
| PtProxyDone                   (* pt_extras.PtProxyDone() *)
| ClientSetupCall (mode : Z) (socksAddr : string) (ptClientProxy : option URL)
    (names : list string) (options : string)
| ServerSetupCall (mode : Z) (info : ServerInfo) (stateDir : string)
    (options : string).

(** How the process ends, or that it does not. *)
Inductive outcome :=
| Exit (code : Z)               (* os.Exit *)
| Returned                      (* main returns *)
| ServeForever                  (* select {} *)
| ServeUntilStdinCloses.        (* io.Copy from stdin, then os.Exit(-1) *)

(** What the process asks of its environment: the PT library and the
    other packages it imports, the file system, and the rest of its own
    package. *)
Record Env := {
  (* the PT library *)
  ParsePT2ServerParameters : string -> gmap string TransportOptions + error;
  ResolveAddr : string -> TCPAddr + error;
  FilterBindaddrs : list Bindaddr -> list string -> list Bindaddr;
  pt_ClientSetup : list string -> list string + error;
  pt_MakeStateDir : string * option error;
  (* package transports and package pt_extras *)
  Transports : list string;
  PtGetProxy : option string -> option URL + error;
  (* the file system *)
  OpenFile : string -> option error;
  MkdirAll : string -> option error;
  Stat : string -> option error;
  ReadFile : string -> string + error;
  (* declared in another file of package main *)
  validatetarget : bool -> string -> string -> string -> option error;
  (* the four front-ends, by mode: whether a listener was launched *)
  ClientSetup : Z -> string -> option URL -> list string -> string -> bool;
  ServerSetup : Z -> ServerInfo -> string -> string -> bool
}.

(** *** The two selectors *)

Definition determineMode (isTransparent isUDP : bool) : list event * Z :=
  if isTransparent && isUDP then
    ([Log Info (Msg "initializing transparent proxy" []);
      Log Info (Msg "initializing UDP transparent proxy" [])], transparentUDP)
  else if isTransparent then
    ([Log Info (Msg "initializing transparent proxy" []);
      Log Info (Msg "initializing TCP transparent proxy" [])], transparentTCP)
  else if isUDP then
    ([Log Info (Msg "initializing STUN UDP proxy" [])], stunUDP)
  else
    ([Log Info (Msg "initializing PT 2.1 socks5 proxy" [])], socks5).

Definition checkIsClient (client server : bool) : bool * option error :=
  if client then (true, None)
  else if server then (false, None)
  else (true, None).

(** *** Bind addresses *)

Section Bindaddrs.

Variable E : Env.

(** The body of the loop over the entries of [-bindaddr]: one entry to
    one [Bindaddr], or the error the function returns with. *)
Definition bindaddrOfSpec (optionsMap : gmap string TransportOptions)
    (spec : string) : Bindaddr + error :=
  match Go.strings_SplitN2 spec "-" with
  | [part0; part1] =>
      match ResolveAddr E part1 with
      | inr err =>
          inr (Msg "-bindaddr: %q: %s" (spec :: format err :: args err))
      | inl addr =>
          inl {| MethodName := part0; Addr := addr;
                 Options := optionsMap !! part0 |}
      end
  | _ =>
      inr (Msg ("-bindaddr: %q: doesn't contain " +:+ dq +:+ "-" +:+ dq)
               [spec])
  end.

(** The loop: [result] grows by one [Bindaddr] per entry and the first
    entry that fails ends the function. *)
Fixpoint bindaddrsLoop (optionsMap : gmap string TransportOptions)
    (specs : list string) (result : list Bindaddr)
    : list Bindaddr + error :=
  match specs with
  | [] => inl result
  | spec :: rest =>
      match bindaddrOfSpec optionsMap spec with
      | inr err => inr err
      | inl bindaddr => bindaddrsLoop optionsMap rest (result ++ [bindaddr])
      end
  end.

(** [transports] is a pointer the function tests against nil, hence an
    [option]; the other two pointers are read without a test. *)
Definition getServerBindaddrs (bindaddrList options : string)
    (transports : option string) : list event * (list Bindaddr + error) :=
  let parsed : list event * (gmap string TransportOptions + error) :=
    if decide (options = EmptyString) then ([], inl ∅)
    else match ParsePT2ServerParameters E options with
         | inr optionsError =>
             ([Log Error (Msg "Error parsing options map %q %q"
                              (options :: format optionsError
                                       :: args optionsError))],
              inr (Msg "-options: %q: %s"
                       (options :: format optionsError
                                :: args optionsError)))
         | inl optionsMap => ([], inl optionsMap)
         end in
  match parsed with
  | (evs, inr err) => (evs, inr err)
  | (evs, inl optionsMap) =>
      match bindaddrsLoop optionsMap (Go.strings_Split bindaddrList ",") [] with
      | inr err => (evs, inr err)
      | inl result =>
          match transports with
          | None =>
              (evs, inr (Msg "must specify -transport or -transports in server mode" []))
          | Some serverTransports =>
              let result :=
                FilterBindaddrs E result (Go.strings_Split serverTransports ",") in
              (evs ++ (if decide (length result = 0%nat)
                       then [Log Error (Msg "no valid bindaddrs" [])] else []),
               inl result)
          end
      end
  end.

Definition getServerInfo (bindaddrList options transportList target
    extorport authcookie : string) : list event * ServerInfo :=
  match getServerBindaddrs bindaddrList options (Some transportList) with
  | (evs, inr err) =>
      (evs ++ [Log Error err;
               Log Error (Msg "Error parsing bindaddrs %q %q %q"
                              [bindaddrList; options; transportList])],
       zeroServerInfo)
  | (evs, inl bindaddrs) =>
      match ResolveAddr E target with
      | inr err =>
          (evs ++ [Log Error (Msg "Error resolving OR address %q %q"
                                  (target :: format err :: args err))],
           {| Bindaddrs := bindaddrs; OrAddr := None;
              ExtendedOrAddr := None; AuthCookiePath := EmptyString |})
      | inl orAddr =>
          let cookie :=
            if decide (authcookie = EmptyString) then EmptyString
            else authcookie in
          if decide (extorport = EmptyString) then
            (evs, {| Bindaddrs := bindaddrs; OrAddr := Some orAddr;
                     ExtendedOrAddr := None; AuthCookiePath := cookie |})
          else
            match ResolveAddr E extorport with
            | inr err =>
                (evs ++ [Log Error
                           (Msg "Error resolving Extended OR address %q %q"
                                (extorport :: format err :: args err))],
                 {| Bindaddrs := bindaddrs; OrAddr := Some orAddr;
                    ExtendedOrAddr := None; AuthCookiePath := cookie |})
            | inl extAddr =>
                (evs, {| Bindaddrs := bindaddrs; OrAddr := Some orAddr;
                         ExtendedOrAddr := Some extAddr;
                         AuthCookiePath := cookie |})
            end
      end
  end.

End Bindaddrs.

(** *** Client names *)

Section ClientNames.

Variable E : Env.

Definition getClientNames (ptversion transportsList proxy : option string)
    : list event * (option URL * list string + error) :=
  let info : list event * (list string + error) :=
    match ptversion, transportsList with
    | Some _, Some tl =>
        if decide (tl = "*") then ([], inl (Transports E))
        else ([], inl (Go.strings_Split tl ","))
    | _, _ =>
        ([Log Info
            (Msg "Falling back to environment variables for ptversion/transports." [])],
         pt_ClientSetup E (Transports E))
    end in
  match info with
  | (evs, inr err) => (evs, inr err)
  | (evs, inl MethodNames) =>
      match PtGetProxy E proxy with
      | inr proxyErr => (evs, inr proxyErr)
      | inl (Some u) => (evs ++ [PtProxyDone], inl (Some u, MethodNames))
      | inl None => (evs, inl (None, MethodNames))
      end
  end.

End ClientNames.

(** *** The process *)

(** The command line after [flag.Parse()].  (The test of [-options] at
    line 102 runs before [flag.Parse()], on the default value, and prints
    nothing.) *)
Record Flags := {
  execName : string;            (* the file name of os.Args[0] *)
  ptversion : string;
  statePath : string;
  exitOnStdinClose : bool;
  transportsList : string;
  proxy : string;
  options : string;
  bindAddr : string;
  extorport : string;
  authcookie : string;
  socksAddr : string;
  optionsFile : string;
  showVer : bool;
  logLevelStr : string;
  enableLogging : bool;
  clientMode : bool;
  serverMode : bool;
  transparent : bool;
  udp : bool;
  target : string
}.

(** A computation of the process: the events so far and either the end
    of the process or a value to go on with. *)
Definition Proc (A : Type) : Type := list event * (outcome + A).

Definition ret {A} (a : A) : Proc A := ([], inr a).

Definition bind {A B} (m : Proc A) (k : A -> Proc B) : Proc B :=
  match m with
  | (t, inl o) => (t, inl o)
  | (t, inr a) => let '(t', r) := k a in (t ++ t', r)
  end.

Notation "x <- m ;; k" := (bind m (fun x => k))
  (at level 100, m at next level, right associativity).
Notation "m ;; k" := (bind m (fun _ => k))
  (at level 100, right associativity).

Definition emit (e : event) : Proc unit := ([e], inr tt).
Definition emits {A} (m : list event * A) : Proc A := (m.1, inr m.2).
Definition stop {A} (o : outcome) : Proc A := ([], inl o).

Definition golog_Infof (fmt : string) (a : list string) : Proc unit :=
  emit (Log Info (Msg fmt a)).
Definition golog_Errorf (fmt : string) (a : list string) : Proc unit :=
  emit (Log Error (Msg fmt a)).
(** [golog.Fatal] and [golog.Fatalf] end the process with [os.Exit(1)]. *)
Definition golog_Fatalf {A} (fmt : string) (a : list string) : Proc A :=
  emit (Log Fatal (Msg fmt a)) ;; stop (Exit 1).

(** The messages of the three fatal ends of the start of [main]. *)
Definition roleRequired : string :=
  "[ERROR]: %s - either --client or --server is required, or configure using PT 2.0 environment variables".
Definition noStateDir : string :=
  "[ERROR]: %s - No state directory: Use --state".
Definition optionsConflict : string :=
  "cannot specify -options and -optionsFile at the same time".

Section Main.

Variable E : Env.

Definition makeStateDir (statePath : string) : string * option error :=
  if decide (statePath = EmptyString) then pt_MakeStateDir E
  else (statePath, MkdirAll E statePath).

(** Lines 129 to 159: the version flag, the logger, the role and the
    state directory.  The state directory is still empty when the log
    path is built, and [enableLogging] is a pointer, never nil. *)
Definition startup (f : Flags) : Proc (bool * string) :=
  (if showVer f then emit (Print getVersion) ;; stop (Exit 0) else ret tt) ;;
  (match OpenFile E dispatcherLogFile with
   | Some _ => emit (Print "could open logFile")
   | None => ret tt
   end) ;;
  emit (SetLevel (Go.strings_ToLower (logLevelStr f))) ;;
  isClient <-
    (match checkIsClient (clientMode f) (serverMode f) with
     | (_, Some _) =>
         emit Usage ;;
         golog_Fatalf roleRequired [execName f]
     | (isClient, None) => ret isClient
     end) ;;
  match makeStateDir (statePath f) with
  | (_, Some _) =>
      emit Usage ;;
      golog_Fatalf noStateDir [execName f]
  | (stateDir, None) => ret (isClient, stateDir)
  end.

(** Lines 160 to 176: the options string the process goes on with. *)
Definition resolveOptions (f : Flags) : Proc string :=
  (if decide (options f ≠ EmptyString ∧ optionsFile f ≠ EmptyString)
   then golog_Fatalf optionsConflict []
   else ret tt) ;;
  if decide (optionsFile f ≠ EmptyString) then
    emit (Print "checking for optionsFile") ;;
    match Stat E (optionsFile f) with
    | Some err =>
        golog_Errorf "optionsFile does not exist with error %s %s"
          (optionsFile f :: format err :: args err) ;;
        ret (options f)
    | None =>
        match ReadFile E (optionsFile f) with
        | inr _ =>
            golog_Errorf "could not open optionsFile: %s" [optionsFile f] ;;
            ret (options f)
        | inl contents => ret contents
        end
    end
  else ret (options f).

(** Lines 178 to 218: the target and the bind address. *)
Definition validate (f : Flags) (isClient : bool) : Proc Z :=
  (match validatetarget E isClient EmptyString EmptyString (target f) with
   | Some validationError => emit (Log Error validationError) ;; stop Returned
   | None => ret tt
   end) ;;
  mode <- emits (determineMode (transparent f) (udp f)) ;;
  (if isClient then
     if decide (target f ≠ EmptyString) then
       golog_Errorf "cannot use -target in client mode" [] ;; stop Returned
     else ret tt
   else
     match mode with
     | 0 =>
         if decide (bindAddr f = EmptyString) then
           golog_Errorf "-%s - socks5 mode requires a bindaddr" [execName f] ;;
           stop Returned
         else ret tt
     | 1 | 2 =>
         if decide (bindAddr f = EmptyString) then
           golog_Errorf "%s - transparent mode requires a bindaddr" [execName f] ;;
           stop Returned
         else ret tt
     | 3 =>
         if decide (bindAddr f = EmptyString) then
           golog_Errorf "%s - STUN mode requires a bindaddr" [execName f] ;;
           stop Returned
         else ret tt
     | _ =>
         golog_Errorf "unsupported mode %d" [pretty mode] ;; stop Returned
     end) ;;
  ret mode.

(** Lines 222 to 283: the front-end of the mode is set up.  The cases
    of a switch differ in the package whose setup they call, which
    [mode] names here, and in one log line. *)
Definition launchClient (f : Flags) (options : string) (mode : Z)
    : Proc bool :=
  r <- emits (getClientNames E (Some (ptversion f)) (Some (transportsList f))
                (Some (proxy f))) ;;
  match r with
  | inr _ =>
      golog_Errorf "must specify -version and -transports" [] ;;
      stop Returned
  | inl (ptClientProxy, names) =>
      emit (ClientSetupCall mode (socksAddr f) ptClientProxy names options) ;;
      ret (ClientSetup E mode (socksAddr f) ptClientProxy names options)
  end.

Definition launchServer (f : Flags) (stateDir options : string) (mode : Z)
    : Proc bool :=
  ptServerInfo <-
    emits (getServerInfo E (bindAddr f) options (transportsList f)
             (target f) (extorport f) (authcookie f)) ;;
  emit (ServerSetupCall mode ptServerInfo stateDir options) ;;
  ret (ServerSetup E mode ptServerInfo stateDir options).

Definition launch (f : Flags) (isClient : bool) (stateDir options : string)
    (mode : Z) : Proc bool :=
  golog_Infof "%s - launched" [getVersion] ;;
  if isClient then
    golog_Infof "%s - initializing client transport listeners" [execName f] ;;
    match mode with
    | 0 =>
        golog_Infof "%s - initializing client transport listeners" [execName f] ;;
        launchClient f options mode
    | 1 | 2 | 3 => launchClient f options mode
    | _ => golog_Errorf "unsupported mode %d" [pretty mode] ;; ret false
    end
  else
    golog_Infof "initializing server transport listeners" [] ;;
    match mode with
    | 0 | 1 =>
        golog_Infof "%s - initializing server transport listeners" [execName f] ;;
        launchServer f stateDir options mode
    | 2 | 3 => launchServer f stateDir options mode
    | _ => golog_Errorf "unsupported mode %d" [pretty mode] ;; ret false
    end.

(** Lines 285 to 298. *)
Definition serve (f : Flags) (launched : bool) : Proc outcome :=
  if negb launched then stop (Exit (-1))
  else
    golog_Infof "%s - accepting connections" [execName f] ;;
    if exitOnStdinClose f then ret ServeUntilStdinCloses
    else ret ServeForever.

(** Lines 178 to 298: the run once the role, the state directory and
    the options string are settled. *)
Definition proceed (f : Flags) (isClient : bool) (stateDir options : string)
    : Proc outcome :=
  mode <- validate f isClient ;;
  launched <- launch f isClient stateDir options mode ;;
  serve f launched.

Definition main_body (f : Flags) : Proc outcome :=
  role <- startup f ;;
  options <- resolveOptions f ;;
  proceed f role.1 role.2 options.

(** The events of a run of [main] and how it ends. *)
Definition main (f : Flags) : list event * outcome :=
  match main_body f with
  | (t, inl o) => (t, o)
  | (t, inr o) => (t, o)
  end.

End Main.

(** *** Observations on the runs of the process *)

(** An event that is not a fatal log line. *)
Definition notFatal (e : event) : Prop :=
  match e with Log Fatal _ => False | _ => True end.

(** An event that is not the setup of a front-end. *)
Definition notSetup (e : event) : Prop :=
  match e with
  | ClientSetupCall _ _ _ _ _ | ServerSetupCall _ _ _ _ => False
  | _ => True
  end.

(** A fatal log line is never the one that asks for a role. *)
Definition notRoleFatal (e : event) : Prop :=
  match e with Log Fatal m => format m <> roleRequired | _ => True end.

(** What the start of [main] does to the logger. *)
Definition loggerEvents (E : Env) (f : Flags) : list event :=
  (match OpenFile E dispatcherLogFile with
   | Some _ => [Print "could open logFile"]
   | None => []
   end) ++ [SetLevel (Go.strings_ToLower (logLevelStr f))].

(** The grammar of an entry of [-bindaddr] in the words of the
    specification: a transport name, the separator and a host and port
    that resolve; [ba] is the bind address the entry stands for. *)
Definition wellFormed (E : Env) (optionsMap : gmap string TransportOptions)
    (spec : string) (ba : Bindaddr) : Prop :=
  exists name hostport addr,
    spec = name +:+ "-" +:+ hostport /\
    Go.occurs "-" name = false /\
    ResolveAddr E hostport = inl addr /\
    ba = {| MethodName := name; Addr := addr; Options := optionsMap !! name |}.

(** The error for an entry without a separator. *)
Definition noSeparator (spec : string) : error :=
  Msg ("-bindaddr: %q: doesn't contain " +:+ dq +:+ "-" +:+ dq) [spec].

(** The options map the function reads: none for the empty string, the
    parsed one otherwise. *)
Definition optionsParsed (E : Env) (options : string)
    (optionsMap : gmap string TransportOptions) : Prop :=
  options = EmptyString /\ optionsMap = ∅ \/
  options <> EmptyString /\ ParsePT2ServerParameters E options = inl optionsMap.

(** *** The shape of the runs of the process *)

(** What the setup of a front-end returned, for the event of its call. *)
Definition launchedBy (E : Env) (e : event) : bool :=
  match e with
  | ClientSetupCall mode socksAddr ptClientProxy names options =>
      ClientSetup E mode socksAddr ptClientProxy names options
  | ServerSetupCall mode info stateDir options =>
      ServerSetup E mode info stateDir options
  | _ => false
  end.

(** The process serves: it blocks for good or until its standard input
    is closed. *)
Definition serving (o : outcome) : Prop :=
  o = ServeForever \/ o = ServeUntilStdinCloses.

(** The flags [f] with other values of [-enableLogging] and
    [-ptversion]. *)
Definition withLogging (f : Flags) (logging : bool) (version : string)
    : Flags := {|
  execName := execName f;
  ptversion := version;
  statePath := statePath f;
  exitOnStdinClose := exitOnStdinClose f;
  transportsList := transportsList f;
  proxy := proxy f;
  options := options f;
  bindAddr := bindAddr f;
  extorport := extorport f;
  authcookie := authcookie f;
  socksAddr := socksAddr f;
  optionsFile := optionsFile f;
  showVer := showVer f;
  logLevelStr := logLevelStr f;
  enableLogging := logging;
  clientMode := clientMode f;
  serverMode := serverMode f;
  transparent := transparent f;
  udp := udp f;
  target := target f
|}.

(** What the start of [main] hands to the setup of a front-end: the
    role, the state directory, the mode and the options string. *)
Record settled := {
  asClient : bool;
  directory : string;
  proxyMode : Z;
  optionsString : string
}.

(** The call of a setup [e] is the one the flags [f] and what the start
    settled ask for: the client's, for the names and the proxy of
    [getClientNames], or the server's, for the configuration of
    [getServerInfo]. *)
Definition configured (E : Env) (f : Flags) (c : settled) (e : event)
    : Prop :=
  match e with
  | ClientSetupCall m a p n o =>
      asClient c = true /\ m = proxyMode c /\ a = socksAddr f /\
      o = optionsString c /\
      (getClientNames E (Some (ptversion f)) (Some (transportsList f))
         (Some (proxy f))).2 = inl (p, n)
  | ServerSetupCall m i d o =>
      asClient c = false /\ m = proxyMode c /\ d = directory c /\
      o = optionsString c /\
      i = (getServerInfo E (bindAddr f) (optionsString c) (transportsList f)
             (target f) (extorport f) (authcookie f)).2
  | _ => False
  end.

(** What [main] settles before it sets a front-end up, when it gets
    that far. *)
Definition settles (E : Env) (f : Flags) (c : settled) : Prop :=
  showVer f = false /\
  asClient c = (checkIsClient (clientMode f) (serverMode f)).1 /\
  makeStateDir E (statePath f) = (directory c, None) /\
  proxyMode c = (determineMode (transparent f) (udp f)).2 /\
  (optionsString c = options f /\ optionsFile f = EmptyString \/
   options f = EmptyString /\ optionsFile f <> EmptyString /\
   (optionsString c = EmptyString \/
    ReadFile E (optionsFile f) = inl (optionsString c))) /\
  validatetarget E (asClient c) EmptyString EmptyString (target f) = None /\
  (if asClient c then target f = EmptyString
   else bindAddr f <> EmptyString).

(** How a stage ends: stopped with an outcome that [P] holds of, or going
    on with a value that [Q] holds of, and [T] holds of its events. *)
Definition stage {A} (T : event -> Prop) (P : outcome -> Prop)
    (Q : A -> Prop) (m : Proc A) : Prop :=
  Forall T m.1 /\
  match m.2 with
  | inl o => P o
  | inr a => Q a
  end.

(** How [launch] ends for a mode of the four: returned, without a setup,
    when the client names cannot be had, or with the call of the setup
    as its last event and what the setup returned as its value. *)
Definition launched (E : Env) (f : Flags) (c : settled) (m : Proc bool)
    : Prop :=
  Forall notSetup m.1 /\ m.2 = inl Returned /\ asClient c = true \/
  exists pre e,
    m = (pre ++ [e], inr (launchedBy E e)) /\
    Forall notSetup pre /\ configured E f c e.

(** The three shapes of a run of [main]: the version and nothing else;
    an end before any setup, fatal or not; or the call of one setup, as
    configured, after which the process serves if the setup launched and
    exits with -1 if it did not. *)
Definition shape (E : Env) (f : Flags) (r : list event * outcome) : Prop :=
  showVer f = true /\ r = ([Print getVersion], Exit 0) \/
  showVer f = false /\ Forall notSetup r.1 /\
    (r.2 = Exit 1 \/ r.2 = Returned) \/
  exists c pre e,
    settles E f c /\ Forall notSetup pre /\ configured E f c e /\
    if launchedBy E e then
      r = (pre ++ [e; Log Info (Msg "%s - accepting connections" [execName f])],
           if exitOnStdinClose f then ServeUntilStdinCloses else ServeForever)
    else r = (pre ++ [e], Exit (-1)).

(** The code the process ends with, when it ends: the argument of
    [os.Exit], and 0 when [main] returns.  A process that serves until
    its standard input is closed ends in [os.Exit(-1)] then; one that
    blocks in [select {}] does not end. *)
Definition exitCode (o : outcome) : option Z :=
  match o with
  | Exit code => Some code
  | Returned => Some 0
  | ServeUntilStdinCloses => Some (-1)
  | ServeForever => None
  end.



End Dispatcher.

(* ===================================================================== *)
(** ** Package pt_socks5 *)
(* ===================================================================== *)

Module PtSocks5.

Import Dispatcher.

(** A connection, by the number the environment gives it. *)
Definition Conn := nat.

(** The server transports, each with the parameters its constructor is
    given: [obfs2.NewObfs2Transport()], [obfs4.NewObfs4Client(cert,
    iatMode, dialer)] with the nil dialer, [replicant.New] with the zero
    configuration, [Dust.NewDustServer(idPath)],
    [meeklite.NewMeekTransportWithFront(Url, Front)] and
    [shadow.NewShadowServer(password, cipherName)]. *)
Inductive Transport :=
| Obfs2Transport
| Obfs4Client (cert : string) (iatMode : Z)
| ReplicantTransport
| DustServer (idPath : string)
| MeekTransportWithFront (Url Front : string)
| ShadowServer (password cipherName : string).

(** A listener: the one [net.Listen("tcp", addr)] opened, with the number
    the network gives it, or the one [transport.Listen] returns for an
    address, which it is given as text. *)
Inductive Listener :=
| TcpListener (id : nat) (addr : string)
| TransportListener (t : Transport) (address : TCPAddr).

(** The reply codes of package socks5: the two the sources name, and
    the others by their number. *)
Inductive ReplyCode :=
| ReplySucceeded
| ReplyGeneralFailure
| ReplyOther (code : Z).

(** The error [ln.Accept()] returns: a [net.Error], which says whether it
    is temporary, or another error. *)
Inductive acceptError :=
| NetError (temporary : bool)
| OtherError.

Inductive accepted :=
| Accepted (conn : Conn)
| AcceptFailed (err : acceptError).

Inductive event :=
| CmethodError (name : string) (msg : error)
| Cmethod (name : string) (ln : Listener)
| CmethodsDone
| SmethodsDone
| Log (l : level) (m : message)
| Println (s : string)
| GoClientAcceptLoop (name : string) (ln : Listener) (proxyURI : option URL)
    (options : string)
| GoServerAcceptLoop (name : string) (ln : Listener)
| GoClientHandler (name : string) (conn : Conn) (proxyURI : option URL)
    (options : string)
| GoServerHandler (name : string) (conn : Conn)
| CloseListener (ln : Listener)
| CloseConn (conn : Conn)
| Reply (code : ReplyCode)
| CopyLoop (a b : Conn).

(** *** ClientSetup *)

Section ClientSetup.

(** The network: [net.Listen] opens a listener or fails, and the network
    is another one afterwards. *)
Variable World : Type.
Variable net_Listen : string -> World -> (Listener + error) * World.

Fixpoint clientSetupLoop (socksAddr : string) (ptClientProxy : option URL)
    (names : list string) (options : string) (w : World)
    (launched : bool) (listeners : list Listener)
    : list event * (bool * list Listener) * World :=
  match names with
  | [] => ([CmethodsDone], (launched, listeners), w)
  | name :: rest =>
      match net_Listen socksAddr w with
      | (inr err, w') =>
          let '(evs, r, w'') :=
            clientSetupLoop socksAddr ptClientProxy rest options w'
              launched listeners in
          (CmethodError name err :: evs, r, w'')
      | (inl ln, w') =>
          let '(evs, r, w'') :=
            clientSetupLoop socksAddr ptClientProxy rest options w'
              true (listeners ++ [ln]) in
          (GoClientAcceptLoop name ln ptClientProxy options
             :: Cmethod name ln
             :: Log Info (Msg "%s - registered listener: %s" [name])
             :: evs, r, w'')
      end
  end.

Definition ClientSetup (socksAddr : string) (ptClientProxy : option URL)
    (names : list string) (options : string) (w : World)
    : list event * (bool * list Listener) * World :=
  clientSetupLoop socksAddr ptClientProxy names options w false [].

End ClientSetup.

(** *** The accept loops

    [accepts] is what the successive calls of [ln.Accept()] return; when
    it is used up the loop is blocked in the next call. *)

Inductive loopState := Accepting | Ended.

Fixpoint clientAcceptLoop (name : string) (ln : Listener)
    (proxyURI : option URL) (options : string) (accepts : list accepted)
    : list event * loopState :=
  match accepts with
  | [] => ([], Accepting)
  | AcceptFailed (NetError false) :: _ =>
      ([Log Error (Msg "serverAcceptLoop failed" []); CloseListener ln], Ended)
  | AcceptFailed _ :: rest => clientAcceptLoop name ln proxyURI options rest
  | Accepted conn :: rest =>
      let '(evs, s) := clientAcceptLoop name ln proxyURI options rest in
      (GoClientHandler name conn proxyURI options :: evs, s)
  end.

Fixpoint serverAcceptLoop (name : string) (ln : Listener)
    (accepts : list accepted) : list event * loopState :=
  match accepts with
  | [] => ([], Accepting)
  | AcceptFailed (NetError false) :: _ => ([], Ended)
  | AcceptFailed _ :: rest => serverAcceptLoop name ln rest
  | Accepted conn :: rest =>
      let '(evs, s) := serverAcceptLoop name ln rest in
      (GoServerHandler name conn :: evs, s)
  end.

(** *** ServerSetup *)

(** How the switch on the transport name ends: with [listen] bound to the
    [Listen] of a transport, in a bare [return] (the named results as
    they stand), in [return false, nil], or in the panic of an index out
    of range. *)
Inductive branch :=
| Bound (listen : Transport)
| BareReturn
| ReturnFalseNil
| Panic.

Definition transportOfName (name : string) (args : Args.t)
    : list event * branch :=
  if decide (name = "obfs2") then ([], Bound Obfs2Transport)
  else if decide (name = "obfs4") then
    match args !! "cert" with
    | Some cert =>
        match args !! "iat-mode" with
        | Some iatModeStr =>
            match iatModeStr with
            | [] => ([], Panic)
            | iatModeStr0 :: _ =>
                match Go.strconv_Atoi iatModeStr0 with
                | (iatMode, Some _) =>
                    match cert with
                    | [] => ([], Panic)
                    | cert0 :: _ => ([], Bound (Obfs4Client cert0 iatMode))
                    end
                | (_, None) =>
                    ([Log Error (Msg "obfs4 transport bad iat-mode value: %s"
                                     iatModeStr)], BareReturn)
                end
            end
        | None =>
            ([Log Error (Msg "obfs4 transport missing cert argument: %s" [])],
             BareReturn)
        end
    | None =>
        ([Log Error (Msg "obfs4 transport missing cert argument: %s" [])],
         BareReturn)
    end
  else if decide (name = "replicant") then
    let '(config, ok) := Args.Get args "config" in
    if ok then ([Println config], Bound ReplicantTransport)
    else ([Println config], ReturnFalseNil)
  else if decide (name = "Dust") then
    let '(idPath, ok) := Args.Get args "idPath" in
    if ok then ([], Bound (DustServer idPath)) else ([], ReturnFalseNil)
  else if decide (name = "meeklite") then
    let '(Url, ok) := Args.Get args "Url" in
    if ok then
      let '(Front, ok2) := Args.Get args "Front" in
      if ok2 then ([], Bound (MeekTransportWithFront Url Front))
      else ([], ReturnFalseNil)
    else ([], ReturnFalseNil)
  else if decide (name = "shadow") then
    let '(password, ok) := Args.Get args "password" in
    if ok then
      let '(cipherName, ok2) := Args.Get args "cipherName" in
      if ok2 then ([], Bound (ShadowServer password cipherName))
      else ([], ReturnFalseNil)
    else ([], ReturnFalseNil)
  else ([Log Error (Msg "Unknown transport: %s" [name])], BareReturn).

(** What [ServerSetup] returns, unless it panics. *)
Inductive setupResult :=
| Return (launched : bool) (listeners : list Listener)
| Panicked.

Section ServerSetup.

(** From the PT library. *)
Variable ParsePT2ClientParameters : string -> Args.t + error.

Fixpoint serverSetupLoop (bindaddrs : list Bindaddr) (options : string)
    (launched : bool) (listeners : list Listener)
    : list event * setupResult :=
  match bindaddrs with
  | [] => ([SmethodsDone], Return launched listeners)
  | bindaddr :: rest =>
      let name := MethodName bindaddr in
      match ParsePT2ClientParameters options with
      | inr _ =>
          ([Log Error (Msg "Error parsing transport options: %s" [options])],
           Return launched listeners)
      | inl args =>
          match transportOfName name args with
          | (evs, BareReturn) => (evs, Return launched listeners)
          | (evs, ReturnFalseNil) => (evs, Return false [])
          | (evs, Panic) => (evs, Panicked)
          | (evs, Bound transport) =>
              let transportLn := TransportListener transport (Addr bindaddr) in
              let '(evs', r) :=
                serverSetupLoop rest options true (listeners ++ [transportLn]) in
              (evs ++ GoServerAcceptLoop name transportLn
                   :: Log Info (Msg "%s - registered listener: %s" [name])
                   :: evs', r)
          end
      end
  end.

Definition ServerSetup (ptServerInfo : ServerInfo) (options : string)
    : list event * setupResult :=
  serverSetupLoop (Bindaddrs ptServerInfo) options false [].

End ServerSetup.

(** *** The client handler *)

(** What [socks5.Handshake] returns on success. *)
Record SocksRequest := {
  Target : string
}.

(** A dial capability and a proxy dialer, by number. *)
Definition ClientTransport := nat.
Definition ProxyDialer := nat.

(** How a call of [copyLoop] ends for its caller: with the error it
    returns, or not at all. *)
Inductive relayEnd :=
| Relayed (err : option error)
| RelayBlocked.

(** What the handler of one connection asks of package socks5, package
    common, package pt_extras, the proxy package, the transport and the
    relay. *)
Record HandlerEnv := {
  socks5_Handshake : Conn -> bool -> SocksRequest + error;
  socksReq_Reply : ReplyCode -> option error;
  ErrorToReplyCode : option error -> ReplyCode;
  ParseOptions : string -> Args.t + error;
  ArgsToDialer :
    string -> string -> Args.t -> option ProxyDialer -> option ClientTransport;
  proxy_FromURL : URL -> ProxyDialer + error;
  transport_Dial : ClientTransport -> Conn + error;
  copyLoop_end : Conn -> Conn -> relayEnd
}.

Inductive handlerEnd :=
| HandlerReturned
| HandlerInRelay          (* copyLoop has not returned *)
| HandlerPanicked.        (* Dial on a nil transport *)

Definition clientHandler (H : HandlerEnv) (name : string) (conn : Conn)
    (proxyURI : option URL) (options : string) : list event * handlerEnd :=
  let needOptions := bool_decide (options = EmptyString) in
  match socks5_Handshake H conn needOptions with
  | inr err =>
      ([Log Error (Msg "%s - client failed socks handshake: %s"
                       (name :: format err :: args err))], HandlerReturned)
  | inl socksReq =>
      (* from here on [err] is nil *)
      let err : option error := None in
      match ParseOptions H options with
      | inr _ =>
          ([Log Error (Msg "Error parsing transport options: %s" [options])],
           HandlerReturned)
      | inl args =>
          let transport := ArgsToDialer H (Target socksReq) name args None in
          let proxied : list event * bool :=
            match proxyURI with
            | Some u =>
                match proxy_FromURL H u with
                | inr _ =>
                    ([Log Error
                        (Msg "%s(%s) - failed to obtain proxy dialer: %s" [name]);
                      Reply ReplyGeneralFailure], false)
                | inl _ => ([], true)
                end
            | None => ([], true)
            end in
          if negb proxied.2 then (proxied.1, HandlerReturned)
          else
            let evs := proxied.1 ++ [Println "Got dialer"] in
            match transport with
            | None => (evs, HandlerPanicked)
            | Some tr =>
                match transport_Dial H tr with
                | inr err2 =>
                    (evs ++ [Log Error
                               (Msg "%s(%s) - outgoing connection failed: %s"
                                    [name]);
                             Reply (ErrorToReplyCode H err)],
                     HandlerReturned)
                | inl remote =>
                    match socksReq_Reply H ReplySucceeded with
                    | Some _ =>
                        (evs ++ [Reply ReplySucceeded;
                                 Log Error
                                   (Msg "%s(%s) - SOCKS reply failed: %s" [name])],
                         HandlerReturned)
                    | None =>
                        match copyLoop_end H conn remote with
                        | RelayBlocked =>
                            (evs ++ [Reply ReplySucceeded; CopyLoop conn remote],
                             HandlerInRelay)
                        | Relayed (Some _) =>
                            (evs ++ [Reply ReplySucceeded; CopyLoop conn remote;
                                     Log Warn
                                       (Msg "%s(%s) - closed connection: %s"
                                            [name])],
                             HandlerReturned)
                        | Relayed None =>
                            (evs ++ [Reply ReplySucceeded; CopyLoop conn remote;
                                     Log Info
                                       (Msg "%s(%s) - closed connection" [name])],
                             HandlerReturned)
                        end
                    end
                end
            end
      end
  end.

(** *** copyLoop

    Two goroutines, each an [io.Copy] in one direction, a channel of
    capacity two and a wait group of two.  A state of the call holds the
    two goroutines, the channel, the counter of the wait group and, once
    the call has returned, what it returned.  The scheduler picks the
    goroutine that takes the next step. *)

(** How [io.Copy] ends in one direction, which the two connections
    decide: it returns [nil] when its source reaches the end of the
    stream, it returns the error of the read or of the write that failed,
    or it does not return, its source neither delivering nor ending. *)
Inductive copyEnd :=
| Returns (err : option error)
| Blocks.

(** One direction: the chunks [io.Copy] moves before it ends, and how it
    ends. *)
Record direction := {
  chunks : nat;
  ending : copyEnd
}.

(** A goroutine of [copyLoop]: in [io.Copy], between the send on
    [errChan] and the deferred [wg.Done()], or finished. *)
Inductive goroutine :=
| Copying (n : nat) (e : copyEnd)
| Sent
| Finished.

Record state := {
  ab : goroutine;                       (* io.Copy(b, a) *)
  ba : goroutine;                       (* io.Copy(a, b) *)
  errChan : list (option error);
  wg : nat;
  returned : option (option error)
}.

Definition start (a2b b2a : direction) : state :=
  {| ab := Copying (chunks a2b) (ending a2b);
     ba := Copying (chunks b2a) (ending b2a);
     errChan := []; wg := 2; returned := None |}.

(** A step of one goroutine, with the channel and the counter before and
    after it.  The channel has room for both sends, so a send never
    waits. *)
Inductive gstep :
  goroutine -> list (option error) -> nat ->
  goroutine -> list (option error) -> nat -> Prop :=
| g_copy n e ch k :
    gstep (Copying (S n) e) ch k (Copying n e) ch k
| g_send err ch k :
    gstep (Copying 0 (Returns err)) ch k Sent (ch ++ [err]) k
| g_done ch k :
    gstep Sent ch k Finished ch (Nat.pred k).

(** A step of the call: a step of either goroutine, or the caller, past
    [wg.Wait()] once the counter is zero, receiving from the channel if
    it holds anything and returning [nil] otherwise. *)
Inductive step : state -> state -> Prop :=
| step_ab s g ch k :
    returned s = None ->
    gstep (ab s) (errChan s) (wg s) g ch k ->
    step s {| ab := g; ba := ba s; errChan := ch; wg := k;
              returned := None |}
| step_ba s g ch k :
    returned s = None ->
    gstep (ba s) (errChan s) (wg s) g ch k ->
    step s {| ab := ab s; ba := g; errChan := ch; wg := k;
              returned := None |}
| step_return s :
    returned s = None ->
    wg s = 0%nat ->
    step s {| ab := ab s; ba := ba s; errChan := tail (errChan s);
              wg := wg s;
              returned := Some (match errChan s with
                                | err :: _ => err
                                | [] => None
                                end) |}.

(** Runs: zero or more steps. *)
Inductive steps : state -> state -> Prop :=
| steps_refl s : steps s s
| steps_step s1 s2 s3 : step s1 s2 -> steps s2 s3 -> steps s1 s3.

(** [copyLoop], with the two directions the connections [a] and [b]
    decide, can return [r]. *)
Definition copyLoop_returns (a2b b2a : direction) (r : option error) : Prop :=
  exists s, steps (start a2b b2a) s /\ returned s = Some r.

(** The same loop under a scheduler given as a list of choices, for
    running it: [true] lets the goroutine of [io.Copy(b, a)] take a step
    and [false] the other one; a choice the goroutine cannot follow is
    passed over.  The caller returns as soon as the counter is zero. *)
Definition gnext (g : goroutine) (ch : list (option error)) (k : nat)
    : option (goroutine * list (option error) * nat) :=
  match g with
  | Copying (S n) e => Some (Copying n e, ch, k)
  | Copying O (Returns err) => Some (Sent, ch ++ [err], k)
  | Copying O Blocks => None
  | Sent => Some (Finished, ch, Nat.pred k)
  | Finished => None
  end.

Definition conclude (s : state) : state :=
  match returned s, wg s with
  | None, O =>
      {| ab := ab s; ba := ba s; errChan := tail (errChan s); wg := wg s;
         returned := Some (match errChan s with
                           | err :: _ => err
                           | [] => None
                           end) |}
  | _, _ => s
  end.

Fixpoint schedule (choices : list bool) (s : state) : state :=
  match choices with
  | [] => conclude s
  | c :: rest =>
      match returned s, wg s with
      | None, S _ =>
          if c then
            match gnext (ab s) (errChan s) (wg s) with
            | Some (g, ch, k) =>
                schedule rest {| ab := g; ba := ba s; errChan := ch; wg := k;
                                 returned := None |}
            | None => schedule rest s
            end
          else
            match gnext (ba s) (errChan s) (wg s) with
            | Some (g, ch, k) =>
                schedule rest {| ab := ab s; ba := g; errChan := ch; wg := k;
                                 returned := None |}
            | None => schedule rest s
            end
      | _, _ => conclude s
      end
  end.

(** *** Observations on the runs of the package *)

(** The names the setup reported on to the PT status protocol, in
    order. *)
Fixpoint announced (evs : list event) : list string :=
  match evs with
  | [] => []
  | Cmethod name _ :: rest | CmethodError name _ :: rest =>
      name :: announced rest
  | _ :: rest => announced rest
  end.

(** The listeners an accept loop was started for, in order. *)
Fixpoint acceptLoops (evs : list event) : list Listener :=
  match evs with
  | [] => []
  | GoClientAcceptLoop _ ln _ _ :: rest | GoServerAcceptLoop _ ln :: rest =>
      ln :: acceptLoops rest
  | _ :: rest => acceptLoops rest
  end.

(** What the successive calls of [net.Listen] return, one call for each
    name, in order, each on the network the call before it left. *)
Fixpoint listens {World : Type}
    (net_Listen : string -> World -> (Listener + error) * World)
    (socksAddr : string) (names : list string) (w : World)
    : list (string * (Listener + error)) :=
  match names with
  | [] => []
  | name :: rest =>
      (name, (net_Listen socksAddr w).1)
        :: listens net_Listen socksAddr rest (net_Listen socksAddr w).2
  end.

(** The listeners opened among them, in order. *)
Definition opened (rs : list (string * (Listener + error))) : list Listener :=
  omap (fun nr => match nr.2 with
                  | inl ln => Some ln
                  | inr _ => None
                  end) rs.

(** What the status protocol and the scheduler see for a name, by what
    [net.Listen] returned for it. *)
Definition clientEntry (ptClientProxy : option URL) (options : string)
    (nr : string * (Listener + error)) : list event :=
  match nr.2 with
  | inl ln =>
      [GoClientAcceptLoop nr.1 ln ptClientProxy options;
       Cmethod nr.1 ln;
       Log Info (Msg "%s - registered listener: %s" [nr.1])]
  | inr err => [CmethodError nr.1 err]
  end.

(** The listener [ServerSetup] starts for a bind address, if the switch
    on its transport name binds [listen]. *)
Definition listenerOf (args : Args.t) (ba : Bindaddr) : option Listener :=
  match (transportOfName (MethodName ba) args).2 with
  | Bound transport => Some (TransportListener transport (Addr ba))
  | _ => None
  end.

(** The accept error that ends a loop: a [net.Error] that is not
    temporary. *)
Definition permanent : accepted := AcceptFailed (NetError false).

(** The handlers started for the connections accepted. *)
Definition clientHandlers (name : string) (proxyURI : option URL)
    (options : string) (accepts : list accepted) : list event :=
  omap (fun a => match a with
                 | Accepted conn =>
                     Some (GoClientHandler name conn proxyURI options)
                 | AcceptFailed _ => None
                 end) accepts.

Definition serverHandlers (name : string) (accepts : list accepted)
    : list event :=
  omap (fun a => match a with
                 | Accepted conn => Some (GoServerHandler name conn)
                 | AcceptFailed _ => None
                 end) accepts.

(** The reply codes sent to the client, in order. *)
Fixpoint replies (evs : list event) : list ReplyCode :=
  match evs with
  | [] => []
  | Reply code :: rest => code :: replies rest
  | _ :: rest => replies rest
  end.

(** Neither the relay nor the closing of a connection. *)
Definition quiet (e : event) : Prop :=
  match e with
  | CopyLoop _ _ | CloseConn _ => False
  | _ => True
  end.

(** What comes before the dial in the trace of a handler that gets as
    far. *)
Definition beforeDial : list event := [Println "Got dialer"].

(** The counter of the wait group counts the goroutines that have not
    finished. *)
Definition unfinished (g : goroutine) : nat :=
  match g with Finished => 0 | _ => 1 end.

Definition counted (s : state) : Prop :=
  wg s = (unfinished (ab s) + unfinished (ba s))%nat.

Definition joined (s : state) : Prop :=
  counted s /\
  (returned s <> None -> ab s = Finished /\ ba s = Finished).

Definition blocked_ba (s : state) : Prop :=
  returned s = None /\ (exists n, ba s = Copying n Blocks) /\ counted s.

Definition blocked_ab (s : state) : Prop :=
  returned s = None /\ (exists n, ab s = Copying n Blocks) /\ counted s.

(** The sends so far: one for each goroutine past its [io.Copy]. *)
Definition sent (g : goroutine) : nat :=
  match g with Copying _ _ => 0 | _ => 1 end.

(** With [e1] and [e2] what the two directions return: the goroutines
    still copying end that way, the channel holds one of the two for each
    send so far, and what the call returned is one of the two. *)
Definition results (e1 e2 : option error) (s : state) : Prop :=
  (forall n e, ab s = Copying n e -> e = Returns e1) /\
  (forall n e, ba s = Copying n e -> e = Returns e2) /\
  Forall (fun e => e = e1 \/ e = e2) (errChan s) /\
  (returned s = None -> length (errChan s) = (sent (ab s) + sent (ba s))%nat) /\
  (forall r, returned s = Some r -> r = e1 \/ r = e2).

Definition size (g : goroutine) : nat :=
  match g with
  | Copying n _ => n + 2
  | Sent => 1
  | Finished => 0
  end.

Definition stepsLeft (s : state) : nat :=
  size (ab s) + size (ba s)
  + match returned s with Some _ => 0 | None => 1 end.

Definition ends (g : goroutine) : Prop :=
  forall n e, g = Copying n e -> e <> Blocks.

(** *** The server handler

    Lines 361 to 380.  [DialOr] is the bridge to the backend of the PT
    library, given the server's configuration, the accepted connection
    and the transport name.  The text of the remote address, which the
    source takes with [remote.RemoteAddr().String()] for the log lines
    and for [pt.DialOr], is not modelled: the connection stands for it,
    and the model says nothing on a connection that has no remote
    address. *)
Definition serverHandler (DialOr : ServerInfo -> Conn -> string -> Conn + error)
    (copyLoop_end : Conn -> Conn -> relayEnd)
    (name : string) (remote : Conn) (info : ServerInfo)
    : list event * handlerEnd :=
  let evs := [Log Info (Msg "%s(%s) - new connection" [name])] in
  match DialOr info remote name with
  | inr _ =>
      (evs ++ [Log Error (Msg "%s(%s) - failed to connect to ORPort: %s" [name])],
       HandlerReturned)
  | inl orConn =>
      match copyLoop_end orConn remote with
      | RelayBlocked => (evs ++ [CopyLoop orConn remote], HandlerInRelay)
      | Relayed (Some _) =>
          (evs ++ [CopyLoop orConn remote;
                   Log Warn (Msg "%s(%s) - closed connection: %s" [name])],
           HandlerReturned)
      | Relayed None =>
          (evs ++ [CopyLoop orConn remote;
                   Log Info (Msg "%s(%s) - closed connection" [name])],
           HandlerReturned)
      end
  end.

(** The relays entered, in order. *)
Fixpoint relays (evs : list event) : list (Conn * Conn) :=
  match evs with
  | [] => []
  | CopyLoop a b :: rest => (a, b) :: relays rest
  | _ :: rest => relays rest
  end.

(** The names reported as failed to the PT status protocol. *)
Fixpoint failures (evs : list event) : list string :=
  match evs with
  | [] => []
  | CmethodError name _ :: rest => name :: failures rest
  | _ :: rest => failures rest
  end.

(** The parameters a server transport must find in the options, by the
    name of the transport, for the names the switch of [ServerSetup]
    knows other than obfs4. *)
Definition required (name : string) : option (list string) :=
  if decide (name = "obfs2") then Some []
  else if decide (name = "replicant") then Some ["config"]
  else if decide (name = "Dust") then Some ["idPath"]
  else if decide (name = "meeklite") then Some ["Url"; "Front"]
  else if decide (name = "shadow") then Some ["password"; "cipherName"]
  else None.

(** A key of the options with at least one value. *)
Definition present (args : Args.t) (key : string) : Prop :=
  (Args.Get args key).2 = true.

(** No key of the options is there without a value. *)
Definition valued (args : Args.t) : Prop :=
  forall key, args !! key <> Some [].

(** Whether an event is the end of the server's announcements. *)
Definition isSmethodsDone (e : event) : bool :=
  match e with SmethodsDone => true | _ => false end.

(** The ends of the client's announcements. *)
Fixpoint cmethodsDone (evs : list event) : nat :=
  match evs with
  | [] => 0
  | CmethodsDone :: rest => S (cmethodsDone rest)
  | _ :: rest => cmethodsDone rest
  end.

(** An event of an accept loop that is the launch of a server handler
    for [name]. *)
Definition isServerHandler (name : string) (e : event) : Prop :=
  exists conn, e = GoServerHandler name conn.

(** The channel holds one value for each goroutine past its send until
    the caller has received, and one value afterwards. *)
Definition buffered (s : state) : Prop :=
  counted s /\
  (returned s = None -> length (errChan s) = (sent (ab s) + sent (ba s))%nat) /\
  (returned s <> None -> length (errChan s) = 1%nat).

End PtSocks5.

(* ===================================================================== *)
(** ** Inputs to run the models on *)
(* ===================================================================== *)

Module Sample.

Import Dispatcher.

(** An environment to run the model in: every file is there and empty,
    every directory can be made, an address is a host, a colon and a
    port in digits, and every front-end launches. *)
Definition env : Env := {|
  ParsePT2ServerParameters := fun _ => inl ∅;
  ResolveAddr := fun s =>
    match Go.cut s ":" with
    | Some (host, port) =>
        match Go.digits 0 port with
        | Some n => inl {| IP := host; Port := n |}
        | None => inr (Msg "invalid port" [])
        end
    | None => inr (Msg "missing port in address" [])
    end;
  FilterBindaddrs := fun addrs methodNames =>
    filter (fun ba => MethodName ba ∈ methodNames) addrs;
  pt_ClientSetup := fun names => inl names;
  pt_MakeStateDir := ("pt_state", None);
  Transports := ["obfs2"; "obfs4"; "shadow"];
  PtGetProxy := fun _ => inl None;
  OpenFile := fun _ => None;
  MkdirAll := fun _ => None;
  Stat := fun _ => None;
  ReadFile := fun _ => inl EmptyString;
  validatetarget := fun _ _ _ _ => None;
  ClientSetup := fun _ _ _ _ _ => true;
  ServerSetup := fun _ _ _ _ => true
|}.

(** The same environment without the options file. *)
Definition envNoFile : Env := {|
  ParsePT2ServerParameters := ParsePT2ServerParameters env;
  ResolveAddr := ResolveAddr env;
  FilterBindaddrs := FilterBindaddrs env;
  pt_ClientSetup := pt_ClientSetup env;
  pt_MakeStateDir := pt_MakeStateDir env;
  Transports := Transports env;
  PtGetProxy := PtGetProxy env;
  OpenFile := OpenFile env;
  MkdirAll := MkdirAll env;
  Stat := fun _ => Some (Msg "no such file or directory" []);
  ReadFile := fun _ => inr (Msg "no such file or directory" []);
  validatetarget := validatetarget env;
  ClientSetup := ClientSetup env;
  ServerSetup := ServerSetup env
|}.

(** [-client -transports obfs2] and nothing else. *)
Definition client : Flags := {|
  execName := "shapeshifter-dispatcher";
  ptversion := "2.1";
  statePath := "state";
  exitOnStdinClose := false;
  transportsList := "obfs2";
  proxy := EmptyString;
  options := EmptyString;
  bindAddr := EmptyString;
  extorport := EmptyString;
  authcookie := EmptyString;
  socksAddr := "127.0.0.1:0";
  optionsFile := EmptyString;
  showVer := false;
  logLevelStr := "ERROR";
  enableLogging := false;
  clientMode := true;
  serverMode := false;
  transparent := false;
  udp := false;
  target := EmptyString
|}.

(** The flags [f] with other values of [-options], [-optionsFile] and
    [-showVersion]. *)
Definition withOptions (f : Flags) (o file : string) (ver : bool) : Flags := {|
  execName := execName f;
  ptversion := ptversion f;
  statePath := statePath f;
  exitOnStdinClose := exitOnStdinClose f;
  transportsList := transportsList f;
  proxy := proxy f;
  options := o;
  bindAddr := bindAddr f;
  extorport := extorport f;
  authcookie := authcookie f;
  socksAddr := socksAddr f;
  optionsFile := file;
  showVer := ver;
  logLevelStr := logLevelStr f;
  enableLogging := enableLogging f;
  clientMode := clientMode f;
  serverMode := serverMode f;
  transparent := transparent f;
  udp := udp f;
  target := target f
|}.

(** The flags [f] without [-optionsFile]. *)
Definition withoutOptionsFile (f : Flags) : Flags :=
  withOptions f (options f) EmptyString (showVer f).

(** [-server -transparent] with the bind address, the transports and
    the target given. *)
Definition serverFlags (bindaddr transports target : string) : Flags := {|
  execName := "shapeshifter-dispatcher";
  ptversion := "2.1";
  statePath := "state";
  exitOnStdinClose := false;
  transportsList := transports;
  proxy := EmptyString;
  options := EmptyString;
  bindAddr := bindaddr;
  extorport := EmptyString;
  authcookie := EmptyString;
  socksAddr := "127.0.0.1:0";
  optionsFile := EmptyString;
  showVer := false;
  logLevelStr := "DEBUG";
  enableLogging := true;
  clientMode := false;
  serverMode := true;
  transparent := true;
  udp := false;
  target := target
|}.

End Sample.

Module SampleNet.

Import Dispatcher PtSocks5.

(** A network given by what its next calls of [net.Listen] do: [None]
    opens a listener, numbered by the calls left, and an error fails. *)
Definition scripted (addr : string) (w : list (option error))
    : (Listener + error) * list (option error) :=
  match w with
  | [] => (inr (Msg "listen: too many open files" []), [])
  | None :: w' => (inl (TcpListener (length w') addr), w')
  | Some err :: w' => (inr err, w')
  end.

Definition inUse : error := Msg "bind: address already in use" [].

Definition local (port : Z) : TCPAddr := {| IP := "127.0.0.1"; Port := port |}.

Definition bindaddr (name : string) (port : Z) : Bindaddr :=
  {| MethodName := name; Addr := local port; Options := None |}.

Definition serverInfo (bindaddrs : list Bindaddr) : ServerInfo :=
  {| Bindaddrs := bindaddrs; OrAddr := Some (local 3333);
     ExtendedOrAddr := None; AuthCookiePath := EmptyString |}.

(** Options that carry nothing, and the options of obfs4 with an
    [iat-mode] that is an integer. *)
Definition noArgs (options : string) : Args.t + error := inl ∅.

Definition obfs4Args (options : string) : Args.t + error :=
  inl (<["cert" := ["AAAA"]]> (<["iat-mode" := ["0"]]> ∅)).

Definition refused : error := Msg "dial tcp: connection refused" [].

(** A connection whose handshake and options are fine and whose dial is
    refused; the reply code of an error tells a nil error from others. *)
Definition refusing : HandlerEnv := {|
  socks5_Handshake := fun _ _ => inl {| Target := "192.0.2.1:443" |};
  socksReq_Reply := fun _ => None;
  ErrorToReplyCode := fun err =>
    match err with
    | None => ReplyGeneralFailure
    | Some _ => ReplyOther 5
    end;
  ParseOptions := fun _ => inl ∅;
  ArgsToDialer := fun _ _ _ _ => Some 0%nat;
  proxy_FromURL := fun _ => inl 0%nat;
  transport_Dial := fun _ => inr refused;
  copyLoop_end := fun _ _ => Relayed None
|}.

End SampleNet.

(* ===================================================================== *)
(** ** Properties of main.go *)
(* ===================================================================== *)

Module MainSpec.

Import Dispatcher.

(** ** Traces of [Proc] computations *)

Lemma bind_trace {A B} (P : event -> Prop) (m : Proc A) (k : A -> Proc B) :
  Forall P m.1 -> (forall a, m.2 = inr a -> Forall P (k a).1) ->
  Forall P (bind m k).1.
Proof.
  destruct m as [t [o|a]]; simpl; intros Hm Hk; [done|].
  specialize (Hk a eq_refl). destruct (k a) as [t' r]; simpl in *.
  by apply Forall_app.
Qed.

Lemma emits_trace {A} (P : event -> Prop) (m : list event * A) :
  Forall P m.1 -> Forall P (emits m).1.
Proof. done. Qed.

Ltac case_goal :=
  match goal with
  | |- context [match ?x with _ => _ end] =>
      lazymatch x with
      | context [match _ with _ => _ end] => fail
      | _ => destruct x
      end
  end.

Ltac trace_step :=
  lazymatch goal with
  | |- Forall _ (bind _ _).1 => apply bind_trace; [|intros ? ?]
  | |- Forall _ (emits _).1 => apply emits_trace
  | |- Forall _ (_ ++ _) => apply Forall_app; split
  | |- Forall _ (_ :: _) => apply Forall_cons; split
  | |- Forall _ [] => apply Forall_nil
  | |- Forall _ (_, _).1 => simpl
  | |- _ => first [ exact I | assumption | case_goal | progress simpl ]
  end.

Ltac trace_tac := repeat trace_step.

Lemma determineMode_notFatal t u : Forall notFatal (determineMode t u).1.
Proof. destruct t, u; repeat constructor. Qed.

Lemma getServerBindaddrs_notFatal E b o t :
  Forall notFatal (getServerBindaddrs E b o t).1.
Proof. unfold getServerBindaddrs. trace_tac. Qed.

Lemma getServerInfo_notFatal E b o tl tg x a :
  Forall notFatal (getServerInfo E b o tl tg x a).1.
Proof.
  unfold getServerInfo.
  pose proof (getServerBindaddrs_notFatal E b o (Some tl)) as H.
  destruct (getServerBindaddrs E b o (Some tl)) as [evs [bs|err]]; simpl in H;
    trace_tac; done.
Qed.

Lemma getClientNames_notFatal E v tl p :
  Forall notFatal (getClientNames E v tl p).1.
Proof. unfold getClientNames. trace_tac. Qed.

Lemma proceed_notFatal E f c d o : Forall notFatal (proceed E f c d o).1.
Proof.
  unfold proceed, validate, launch, launchClient, launchServer, serve,
    golog_Errorf, golog_Infof, emit, stop, ret.
  trace_tac;
    auto using determineMode_notFatal, getServerInfo_notFatal,
               getClientNames_notFatal.
Qed.

(** ** determineMode and checkIsClient *)

(** C5. Mode selection is a total function of the two flags with the
    table of the specification, and its value is always one of the four
    modes, which are four different constants. *)
Theorem determineMode_table :
  (determineMode false false).2 = socks5 /\
  (determineMode true false).2 = transparentTCP /\
  (determineMode false true).2 = stunUDP /\
  (determineMode true true).2 = transparentUDP /\
  (forall t u, (determineMode t u).2 ∈
     [socks5; transparentTCP; transparentUDP; stunUDP]) /\
  NoDup [socks5; transparentTCP; transparentUDP; stunUDP].
Proof.
  repeat split; try reflexivity.
  - intros [] []; simpl; set_solver.
  - unfold socks5, transparentTCP, transparentUDP, stunUDP.
    repeat (apply NoDup_cons_2;
            [rewrite ?elem_of_cons, elem_of_nil; intuition discriminate|]).
    apply NoDup_nil_2.
Qed.

Lemma notFatal_notRoleFatal e : notFatal e -> notRoleFatal e.
Proof. by destruct e as [| | |[] ?| | |]. Qed.

Lemma main_trace E f : (main E f).1 = (main_body E f).1.
Proof. unfold main. by destruct (main_body E f) as [t [o|o]]. Qed.

Lemma startup_notRoleFatal E f : Forall notRoleFatal (startup E f).1.
Proof.
  unfold startup, checkIsClient, golog_Fatalf, emit, stop, ret.
  trace_tac; discriminate.
Qed.

Lemma resolveOptions_notRoleFatal E f :
  Forall notRoleFatal (resolveOptions E f).1.
Proof.
  unfold resolveOptions, golog_Fatalf, golog_Errorf, emit, stop, ret.
  trace_tac; discriminate.
Qed.

(** C9. [checkIsClient] never returns an error: without a flag the role
    is the client's, with both flags the client wins, and no run of
    [main] logs that a role is required. *)
Theorem checkIsClient_never_fails :
  (forall client server, (checkIsClient client server).2 = None) /\
  checkIsClient false false = (true, None) /\
  checkIsClient true true = (true, None) /\
  (forall E f m, Log Fatal m ∈ (main E f).1 -> format m <> roleRequired).
Proof.
  repeat split.
  - by intros [] [].
  - intros E f m Hin. rewrite main_trace in Hin.
    assert (Forall notRoleFatal (main_body E f).1) as Hall.
    { unfold main_body.
      apply bind_trace; [apply startup_notRoleFatal|intros role _].
      apply bind_trace; [apply resolveOptions_notRoleFatal|intros o _].
      eapply Forall_impl; [apply proceed_notFatal|].
      apply notFatal_notRoleFatal. }
    rewrite Forall_forall in Hall. exact (Hall _ Hin).
Qed.

(** ** The options string *)

Lemma startup_eq E f :
  showVer f = false ->
  startup E f =
    match makeStateDir E (statePath f) with
    | (_, Some _) =>
        (loggerEvents E f ++ [Usage; Log Fatal (Msg noStateDir [execName f])],
         inl (Exit 1))
    | (stateDir, None) =>
        (loggerEvents E f,
         inr ((checkIsClient (clientMode f) (serverMode f)).1, stateDir))
    end.
Proof.
  intros Hv. unfold startup, loggerEvents, checkIsClient. rewrite Hv.
  destruct (makeStateDir E (statePath f)) as [d [e|]];
    destruct (OpenFile E dispatcherLogFile), (clientMode f), (serverMode f);
    reflexivity.
Qed.

Lemma loggerEvents_notSetup E f : Forall notSetup (loggerEvents E f).
Proof. unfold loggerEvents. trace_tac. Qed.

(** C7, as the code has it. With both [-options] and [-optionsFile]
    given and no [-showVersion], the process ends in [os.Exit(1)] right
    after a fatal log line and before any front-end is set up; the line
    is the one about the state directory when that directory cannot be
    made and the one about the two options otherwise. *)
Theorem options_conflict_is_fatal E f :
  options f <> EmptyString -> optionsFile f <> EmptyString ->
  showVer f = false ->
  exists pre m,
    main E f = (pre ++ [Log Fatal m], Exit 1) /\
    Forall notSetup pre /\
    (format m = noStateDir /\ (makeStateDir E (statePath f)).2 <> None \/
     format m = optionsConflict /\ (makeStateDir E (statePath f)).2 = None).
Proof.
  intros Ho Hf Hv.
  pose proof (loggerEvents_notSetup E f) as Hpre.
  unfold main, main_body, resolveOptions. rewrite (startup_eq _ _ Hv).
  destruct (decide (options f ≠ EmptyString ∧ optionsFile f ≠ EmptyString))
    as [_|Hn]; [|tauto].
  destruct (makeStateDir E (statePath f)) as [d [e|]]; simpl.
  - exists (loggerEvents E f ++ [Usage]), (Msg noStateDir [execName f]).
    rewrite <- app_assoc. split; [done|]. split; [|by left].
    apply Forall_app; split; [done|]. by repeat constructor.
  - exists (loggerEvents E f), (Msg optionsConflict []).
    split; [done|]. split; [done|by right].
Qed.

(** With [-showVersion] the same command line prints the version and
    ends in [os.Exit(0)]. *)
Lemma options_conflict_with_showVersion :
  let f := Sample.withOptions Sample.client "cert=x" "options.json" true in
  options f <> EmptyString /\ optionsFile f <> EmptyString /\
  main Sample.env f = ([Print "dispatcher-0.0.7-dev"], Exit 0).
Proof. repeat split; discriminate. Qed.

Lemma options_conflict_is_fatal_witness :
  let f := Sample.withOptions Sample.client "cert=x" "options.json" false in
  exists pre m,
    main Sample.env f = (pre ++ [Log Fatal m], Exit 1) /\
    Forall notSetup pre /\
    (format m = noStateDir /\
       (makeStateDir Sample.env (statePath f)).2 <> None \/
     format m = optionsConflict /\
       (makeStateDir Sample.env (statePath f)).2 = None).
Proof.
  apply (options_conflict_is_fatal Sample.env
           (Sample.withOptions Sample.client "cert=x" "options.json" false));
    [discriminate | discriminate | reflexivity].
Defined.

Lemma resolveOptions_no_file E f :
  optionsFile f = EmptyString -> resolveOptions E f = ret (options f).
Proof.
  intros Hf. unfold resolveOptions. rewrite Hf.
  destruct (decide (options f ≠ EmptyString ∧ EmptyString ≠ EmptyString))
    as [[_ ?]|_]; [done|].
  by destruct (decide (EmptyString ≠ EmptyString)).
Qed.

Lemma resolveOptions_file E f :
  optionsFile f <> EmptyString -> options f = EmptyString ->
  resolveOptions E f =
    match Stat E (optionsFile f), ReadFile E (optionsFile f) with
    | Some err, _ =>
        ([Print "checking for optionsFile";
          Log Error (Msg "optionsFile does not exist with error %s %s"
                         (optionsFile f :: format err :: args err))],
         inr EmptyString)
    | None, inr _ =>
        ([Print "checking for optionsFile";
          Log Error (Msg "could not open optionsFile: %s" [optionsFile f])],
         inr EmptyString)
    | None, inl contents => ([Print "checking for optionsFile"], inr contents)
    end.
Proof.
  intros Hf Ho. unfold resolveOptions. rewrite Ho.
  destruct (decide (EmptyString ≠ EmptyString ∧ optionsFile f ≠ EmptyString))
    as [[Hn _]|_]; [done|].
  destruct (decide (optionsFile f ≠ EmptyString)) as [_|Hn]; [|done].
  destruct (Stat E (optionsFile f)); [done|].
  by destruct (ReadFile E (optionsFile f)).
Qed.

(** With an options file the run cannot use and no [-options], the run
    is the run of the same command line without [-optionsFile], but for
    the [lines] on the file once the start is through. *)
Lemma main_without_optionsFile E f lines :
  optionsFile f <> EmptyString -> options f = EmptyString ->
  resolveOptions E f = (lines, inr EmptyString) ->
  match startup E f with
  | (t, inl o) =>
      main E f = (t, o) /\ main E (Sample.withoutOptionsFile f) = (t, o)
  | (t, inr role) =>
      exists rest o,
        main E (Sample.withoutOptionsFile f) = (t ++ rest, o) /\
        main E f = (t ++ lines ++ rest, o)
  end.
Proof.
  intros Hf Ho Hr. unfold main, main_body. rewrite Hr.
  rewrite (resolveOptions_no_file E (Sample.withoutOptionsFile f) eq_refl).
  change (startup E (Sample.withoutOptionsFile f)) with (startup E f).
  destruct (startup E f) as [t [o|role]]; simpl; [done|].
  change (proceed E (Sample.withoutOptionsFile f) role.1 role.2 (options f))
    with (proceed E f role.1 role.2 (options f)).
  rewrite Ho.
  destruct (proceed E f role.1 role.2 EmptyString) as [rest [o|o]];
    exists rest, o; simpl; rewrite ?app_nil_r, <- ?app_assoc; done.
Qed.

(** C10, as the code has it.  With [-optionsFile] naming a file that is
    not there or cannot be read, and no [-options], an error is logged
    and the options string stays empty; the process is not ended for it:
    when the start of [main] gets as far as the options, the run is the
    run of the command line without [-optionsFile], but for the lines on
    the file, and when the start ends the process, it ends it as it does
    without the file.  Only a read that succeeds puts the contents of
    the file in the place of the options string. *)
Theorem optionsFile_unreadable_keeps_options E f :
  optionsFile f <> EmptyString -> options f = EmptyString ->
  (forall err, Stat E (optionsFile f) = Some err ->
     let lines :=
       [Print "checking for optionsFile";
        Log Error (Msg "optionsFile does not exist with error %s %s"
                       (optionsFile f :: format err :: args err))] in
     resolveOptions E f = (lines, inr EmptyString) /\
     match startup E f with
     | (t, inl o) => main E f = (t, o)
     | (t, inr role) =>
         exists rest o,
           main E (Sample.withoutOptionsFile f) = (t ++ rest, o) /\
           main E f = (t ++ lines ++ rest, o)
     end) /\
  (forall err, Stat E (optionsFile f) = None ->
     ReadFile E (optionsFile f) = inr err ->
     let lines :=
       [Print "checking for optionsFile";
        Log Error (Msg "could not open optionsFile: %s" [optionsFile f])] in
     resolveOptions E f = (lines, inr EmptyString) /\
     match startup E f with
     | (t, inl o) => main E f = (t, o)
     | (t, inr role) =>
         exists rest o,
           main E (Sample.withoutOptionsFile f) = (t ++ rest, o) /\
           main E f = (t ++ lines ++ rest, o)
     end) /\
  (forall contents, Stat E (optionsFile f) = None ->
     ReadFile E (optionsFile f) = inl contents ->
     resolveOptions E f = ([Print "checking for optionsFile"], inr contents)).
Proof.
  intros Hf Ho. pose proof (resolveOptions_file E f Hf Ho) as Hr.
  repeat apply conj.
  - intros err Hs lines. rewrite Hs in Hr. split; [done|].
    pose proof (main_without_optionsFile E f lines Hf Ho Hr) as Hm.
    destruct (startup E f) as [t [o|role]]; [apply Hm|done].
  - intros err Hs Hread lines. rewrite Hs, Hread in Hr. split; [done|].
    pose proof (main_without_optionsFile E f lines Hf Ho Hr) as Hm.
    destruct (startup E f) as [t [o|role]]; [apply Hm|done].
  - intros contents Hs Hread. by rewrite Hs, Hread in Hr.
Qed.

Lemma optionsFile_unreadable_keeps_options_witness :
  let f := Sample.withOptions Sample.client EmptyString "options.json" false in
  resolveOptions Sample.envNoFile f =
    ([Print "checking for optionsFile";
      Log Error (Msg "optionsFile does not exist with error %s %s"
                     ["options.json"; "no such file or directory"])],
     inr EmptyString).
Proof.
  apply (proj1 (proj1 (optionsFile_unreadable_keeps_options Sample.envNoFile
                         (Sample.withOptions Sample.client EmptyString
                            "options.json" false)
                         ltac:(discriminate) eq_refl)
                      (Msg "no such file or directory" []) eq_refl)).
Defined.

(** With [-options] given as well, a file that is not there does not
    get the run to go on: the process ends in [os.Exit(1)] on the fatal
    line of the conflict, and the file is not looked at. *)
Lemma optionsFile_unreadable_with_options :
  let f := Sample.withOptions Sample.client "cert=x" "options.json" false in
  Stat Sample.envNoFile (optionsFile f) <> None /\
  resolveOptions Sample.envNoFile f
    = ([Log Fatal (Msg optionsConflict [])], inl (Exit 1)) /\
  main Sample.envNoFile f
    = ([SetLevel "error"; Log Fatal (Msg optionsConflict [])], Exit 1).
Proof. repeat split; discriminate. Qed.

(** ** The entries of -bindaddr *)

Lemma cut_app c x r :
  Go.occurs c x = false -> Go.cut (x +:+ String c r) c = Some (x, r).
Proof.
  induction x as [|d x IH]; simpl.
  - intros _. by rewrite Ascii.eqb_refl.
  - intros H. apply orb_false_iff in H as [Hd Hx].
    rewrite Hd, (IH Hx). done.
Qed.

Lemma cut_none c s : Go.occurs c s = false -> Go.cut s c = None.
Proof.
  induction s as [|d s IH]; simpl; [done|].
  intros H. apply orb_false_iff in H as [Hd Hs]. by rewrite Hd, (IH Hs).
Qed.

Lemma strings_Split_none c s :
  Go.occurs c s = false -> Go.strings_Split s c = [s].
Proof.
  induction s as [|d s IH]; simpl; [done|].
  intros H. apply orb_false_iff in H as [Hd Hs]. by rewrite Hd, (IH Hs).
Qed.

Lemma strings_Split_app c x r :
  Go.occurs c x = false ->
  Go.strings_Split (x +:+ String c r) c = x :: Go.strings_Split r c.
Proof.
  induction x as [|d x IH]; simpl.
  - intros _. by rewrite Ascii.eqb_refl.
  - intros H. apply orb_false_iff in H as [Hd Hx]. by rewrite Hd, (IH Hx).
Qed.

Lemma strings_Split_Join c (elems : list string) :
  elems <> [] -> Forall (fun s => Go.occurs c s = false) elems ->
  Go.strings_Split (Go.strings_Join elems c) c = elems.
Proof.
  induction elems as [|s [|s' rest] IH]; [done| |]; intros _ Hall.
  - simpl. apply strings_Split_none. by inversion Hall.
  - inversion Hall as [|? ? Hs Hrest]; subst.
    change (Go.strings_Join (s :: s' :: rest) c)
      with (s +:+ String c (Go.strings_Join (s' :: rest) c)).
    rewrite (strings_Split_app _ _ _ Hs). f_equal. by apply IH.
Qed.

Lemma bindaddrOfSpec_wellFormed E om spec ba :
  wellFormed E om spec ba -> bindaddrOfSpec E om spec = inl ba.
Proof.
  intros (name & hostport & addr & -> & Hname & Hres & ->).
  unfold bindaddrOfSpec, Go.strings_SplitN2.
  change (name +:+ "-" +:+ hostport) with (name +:+ String "-" hostport).
  by rewrite (cut_app _ _ _ Hname), Hres.
Qed.

Lemma bindaddrOfSpec_noSeparator E om spec :
  Go.occurs "-" spec = false ->
  bindaddrOfSpec E om spec = inr (noSeparator spec).
Proof.
  intros H. unfold bindaddrOfSpec, Go.strings_SplitN2.
  by rewrite (cut_none _ _ H).
Qed.

Lemma bindaddrsLoop_wellFormed E om specs bas result :
  Forall2 (wellFormed E om) specs bas ->
  bindaddrsLoop E om specs result = inl (result ++ bas).
Proof.
  intros H. revert result.
  induction H as [|spec ba specs bas Hwf _ IH]; intros result; simpl.
  - by rewrite app_nil_r.
  - rewrite (bindaddrOfSpec_wellFormed _ _ _ _ Hwf), IH.
    by rewrite <- app_assoc.
Qed.

Lemma bindaddrsLoop_first_failure E om good bas bad rest err result :
  Forall2 (wellFormed E om) good bas ->
  bindaddrOfSpec E om bad = inr err ->
  bindaddrsLoop E om (good ++ bad :: rest) result = inr err.
Proof.
  intros H Hbad. revert result.
  induction H as [|spec ba specs bas' Hwf _ IH]; intros result; simpl.
  - by rewrite Hbad.
  - by rewrite (bindaddrOfSpec_wellFormed _ _ _ _ Hwf), IH.
Qed.

(** C6. With options that parse and entries free of commas, joined by
    commas: when every entry is well formed the function returns, after
    the filter on the enabled transports, the bind addresses the entries
    stand for, each with the name before the separator and the resolved
    address; and an entry without separator, the ones before it well
    formed, makes the function fail with the error that carries that
    entry. *)
Theorem getServerBindaddrs_entries E options optionsMap transports
    (specs : list string) :
  optionsParsed E options optionsMap ->
  specs <> [] -> Forall (fun s => Go.occurs "," s = false) specs ->
  (forall bas, Forall2 (wellFormed E optionsMap) specs bas ->
     (getServerBindaddrs E (Go.strings_Join specs ",") options
        (Some transports)).2
     = inl (FilterBindaddrs E bas (Go.strings_Split transports ","))) /\
  (forall good bas bad rest,
     specs = good ++ bad :: rest ->
     Forall2 (wellFormed E optionsMap) good bas ->
     Go.occurs "-" bad = false ->
     (getServerBindaddrs E (Go.strings_Join specs ",") options
        (Some transports)).2
     = inr (noSeparator bad)).
Proof.
  intros Hopt Hne Hcomma.
  assert (forall r,
    bindaddrsLoop E optionsMap specs [] = r ->
    (getServerBindaddrs E (Go.strings_Join specs ",") options
       (Some transports)).2 =
    match r with
    | inl bas => inl (FilterBindaddrs E bas (Go.strings_Split transports ","))
    | inr err => inr err
    end) as Hfun.
  { intros r <-. unfold getServerBindaddrs.
    rewrite (strings_Split_Join _ _ Hne Hcomma).
    destruct Hopt as [[-> ->]|[Ho Hp]].
    - simpl. by destruct (bindaddrsLoop E ∅ specs []).
    - destruct (decide (options = EmptyString)); [done|]. rewrite Hp.
      by destruct (bindaddrsLoop E optionsMap specs []). }
  split.
  - intros bas Hwf. apply (Hfun (inl bas)).
    by rewrite (bindaddrsLoop_wellFormed _ _ _ _ _ Hwf).
  - intros good bas bad rest -> Hwf Hbad. apply (Hfun (inr (noSeparator bad))).
    eapply bindaddrsLoop_first_failure; [done|].
    by apply bindaddrOfSpec_noSeparator.
Qed.

Lemma getServerBindaddrs_entries_witness :
  (getServerBindaddrs Sample.env "obfs2-127.0.0.1:2222,shadow-127.0.0.1:2223"
     EmptyString (Some "obfs2,shadow")).2
  = inl [ {| MethodName := "obfs2";
             Addr := {| IP := "127.0.0.1"; Port := 2222 |};
             Options := None |};
          {| MethodName := "shadow";
             Addr := {| IP := "127.0.0.1"; Port := 2223 |};
             Options := None |} ] /\
  (getServerBindaddrs Sample.env "obfs2-127.0.0.1:2222,shadow" 
     EmptyString (Some "obfs2,shadow")).2
  = inr (noSeparator "shadow").
Proof.
  assert (wellFormed Sample.env ∅ "obfs2-127.0.0.1:2222"
            {| MethodName := "obfs2";
               Addr := {| IP := "127.0.0.1"; Port := 2222 |};
               Options := None |}) as H1.
  { by exists "obfs2", "127.0.0.1:2222", {| IP := "127.0.0.1"; Port := 2222 |}. }
  assert (wellFormed Sample.env ∅ "shadow-127.0.0.1:2223"
            {| MethodName := "shadow";
               Addr := {| IP := "127.0.0.1"; Port := 2223 |};
               Options := None |}) as H2.
  { by exists "shadow", "127.0.0.1:2223", {| IP := "127.0.0.1"; Port := 2223 |}. }
  split.
  - exact (proj1 (getServerBindaddrs_entries Sample.env EmptyString ∅
             "obfs2,shadow" ["obfs2-127.0.0.1:2222"; "shadow-127.0.0.1:2223"]
             (or_introl (conj eq_refl eq_refl)) ltac:(discriminate)
             ltac:(repeat constructor))
           [ {| MethodName := "obfs2";
                Addr := {| IP := "127.0.0.1"; Port := 2222 |};
                Options := None |};
             {| MethodName := "shadow";
                Addr := {| IP := "127.0.0.1"; Port := 2223 |};
                Options := None |} ]
           ltac:(constructor; [exact H1|constructor; [exact H2|constructor]])).
  - exact (proj2 (getServerBindaddrs_entries Sample.env EmptyString ∅
             "obfs2,shadow" ["obfs2-127.0.0.1:2222"; "shadow"]
             (or_introl (conj eq_refl eq_refl)) ltac:(discriminate)
             ltac:(repeat constructor))
           ["obfs2-127.0.0.1:2222"]
           [ {| MethodName := "obfs2";
                Addr := {| IP := "127.0.0.1"; Port := 2222 |};
                Options := None |} ]
           "shadow" [] eq_refl
           ltac:(constructor; [exact H1|constructor]) eq_refl).
Defined.

End MainSpec.

(* ===================================================================== *)
(** ** Properties of package pt_socks5 *)
(* ===================================================================== *)

Module Socks5Spec.

Import Dispatcher PtSocks5.

(** ** ClientSetup and ServerSetup *)

Lemma acceptLoops_app evs1 evs2 :
  acceptLoops (evs1 ++ evs2) = acceptLoops evs1 ++ acceptLoops evs2.
Proof.
  induction evs1 as [|[] evs1 IH]; simpl; try done; by rewrite IH.
Qed.

Section Client.

Variable World : Type.
Variable net_Listen : string -> World -> (Listener + error) * World.

Lemma clientSetupLoop_spec socksAddr proxy names options w launched listeners :
  let '(evs, (launched', listeners'), _) :=
    clientSetupLoop World net_Listen socksAddr proxy names options w
      launched listeners in
  announced evs = names /\
  listeners' = listeners ++ acceptLoops evs /\
  launched' = launched || bool_decide (acceptLoops evs <> []) /\
  last evs = Some CmethodsDone.
Proof.
  revert w launched listeners.
  induction names as [|name rest IH]; intros w launched listeners; simpl.
  - rewrite app_nil_r, orb_false_r. done.
  - destruct (net_Listen socksAddr w) as [[ln|err] w'].
    + specialize (IH w' true (listeners ++ [ln])).
      destruct (clientSetupLoop _ _ _ _ rest _ w' true _)
        as [[evs [l' ls']] w'']. simpl.
      destruct IH as (-> & -> & -> & Hlast). repeat split.
      * by rewrite <- app_assoc.
      * by rewrite orb_true_r.
      * destruct evs; [done|]. by rewrite !last_cons_cons.
    + specialize (IH w' launched listeners).
      destruct (clientSetupLoop _ _ _ _ rest _ w' launched _)
        as [[evs [l' ls']] w'']. simpl.
      destruct IH as (-> & -> & -> & Hlast). repeat split.
      destruct evs; [done|]. by rewrite last_cons_cons.
Qed.

Lemma clientSetupLoop_listens socksAddr proxy names options w launched
    listeners :
  let rs := listens net_Listen socksAddr names w in
  let r := clientSetupLoop World net_Listen socksAddr proxy names options w
             launched listeners in
  r.1.1 = concat (clientEntry proxy options <$> rs) ++ [CmethodsDone] /\
  r.1.2 = (launched || bool_decide (opened rs <> []), listeners ++ opened rs).
Proof.
  revert w launched listeners.
  induction names as [|name rest IH]; intros w launched listeners; simpl.
  - by rewrite app_nil_r, orb_false_r.
  - destruct (net_Listen socksAddr w) as [[ln|err] w']; simpl.
    + specialize (IH w' true (listeners ++ [ln])).
      destruct (clientSetupLoop _ _ _ _ rest _ w' true _) as [[evs r] w''].
      simpl in *. destruct IH as [-> ->].
      unfold opened. simpl. by rewrite <- app_assoc, orb_true_r.
    + specialize (IH w' launched listeners).
      destruct (clientSetupLoop _ _ _ _ rest _ w' launched _) as [[evs r] w''].
      simpl in *. destruct IH as [-> ->]. done.
Qed.

End Client.

Section Server.

Variable ParsePT2ClientParameters : string -> Args.t + error.

Lemma transportOfName_events name args :
  acceptLoops (transportOfName name args).1 = [].
Proof.
  unfold transportOfName, Args.Get.
  repeat (case_match; simpl; try done).
Qed.

Lemma serverSetupLoop_cons_Bound ba rest options args t launched listeners :
  ParsePT2ClientParameters options = inl args ->
  (transportOfName (MethodName ba) args).2 = Bound t ->
  serverSetupLoop ParsePT2ClientParameters (ba :: rest) options launched
    listeners =
  let ln := TransportListener t (Addr ba) in
  let r := serverSetupLoop ParsePT2ClientParameters rest options true
             (listeners ++ [ln]) in
  ((transportOfName (MethodName ba) args).1
     ++ GoServerAcceptLoop (MethodName ba) ln
     :: Log Info (Msg "%s - registered listener: %s" [MethodName ba])
     :: r.1, r.2).
Proof.
  intros Hp Ht. simpl. rewrite Hp.
  destruct (transportOfName (MethodName ba) args) as [evs br].
  simpl in Ht. subst br.
  by destruct (serverSetupLoop _ rest options true _).
Qed.

Lemma serverSetupLoop_all options args bas lns launched listeners :
  ParsePT2ClientParameters options = inl args ->
  Forall2 (fun ba ln => listenerOf args ba = Some ln) bas lns ->
  let r := serverSetupLoop ParsePT2ClientParameters bas options launched
             listeners in
  r.2 = Return (launched || bool_decide (bas <> [])) (listeners ++ lns) /\
  acceptLoops r.1 = lns.
Proof.
  intros Hp H. revert launched listeners.
  induction H as [|ba ln bas lns Hln _ IH]; intros launched listeners.
  - simpl. by rewrite app_nil_r, orb_false_r.
  - unfold listenerOf in Hln.
    destruct (transportOfName (MethodName ba) args).2 as [t| | |] eqn:Ht;
      try done.
    injection Hln as <-.
    rewrite (serverSetupLoop_cons_Bound _ _ _ _ _ _ _ Hp Ht).
    destruct (IH true (listeners ++ [TransportListener t (Addr ba)]))
      as [Hr Hevs].
    cbv zeta. simpl fst. simpl snd. split.
    + rewrite Hr, <- app_assoc, orb_true_r. done.
    + rewrite acceptLoops_app, transportOfName_events. simpl. by rewrite Hevs.
Qed.

Lemma serverSetupLoop_first_failure options args good lns bad rest launched
    listeners :
  ParsePT2ClientParameters options = inl args ->
  Forall2 (fun ba ln => listenerOf args ba = Some ln) good lns ->
  listenerOf args bad = None ->
  let r := serverSetupLoop ParsePT2ClientParameters (good ++ bad :: rest)
             options launched listeners in
  acceptLoops r.1 = lns /\
  r = serverSetupLoop ParsePT2ClientParameters (good ++ [bad]) options
        launched listeners.
Proof.
  intros Hp H Hbad. revert launched listeners.
  induction H as [|ba ln bas lns Hln _ IH]; intros launched listeners.
  - simpl. rewrite Hp. unfold listenerOf in Hbad.
    pose proof (transportOfName_events (MethodName bad) args) as Hev.
    destruct (transportOfName (MethodName bad) args) as [evs [t| | |]];
      simpl in *; done.
  - unfold listenerOf in Hln.
    destruct (transportOfName (MethodName ba) args).2 as [t| | |] eqn:Ht;
      try done.
    injection Hln as <-. rewrite <- !app_comm_cons.
    rewrite !(serverSetupLoop_cons_Bound _ _ _ _ _ _ _ Hp Ht).
    destruct (IH true (listeners ++ [TransportListener t (Addr ba)]))
      as [Hevs Hr].
    cbv zeta in *. simpl fst. split.
    + rewrite acceptLoops_app, transportOfName_events. simpl. by rewrite Hevs.
    + by rewrite Hr.
Qed.

Lemma serverSetupLoop_launched bas options launched listeners evs ls :
  serverSetupLoop ParsePT2ClientParameters bas options launched listeners
    = (evs, Return true ls) ->
  ls = listeners ++ acceptLoops evs /\
  (launched = true \/ acceptLoops evs <> []).
Proof.
  revert launched listeners evs.
  induction bas as [|ba rest IH]; intros launched listeners evs; simpl.
  - intros [= <- -> <-]. simpl. rewrite app_nil_r. auto.
  - destruct (ParsePT2ClientParameters options) as [args|err].
    + pose proof (transportOfName_events (MethodName ba) args) as Hev.
      destruct (transportOfName (MethodName ba) args) as [evs0 [t| | |]];
        simpl in Hev.
      * destruct (serverSetupLoop _ rest options true _) as [evs' r] eqn:Hl.
        intros [= <- ->]. apply IH in Hl as [-> _].
        rewrite acceptLoops_app, Hev, <- app_assoc. simpl. split; [done|].
        right. done.
      * intros [= <- -> <-]. rewrite Hev, app_nil_r. auto.
      * done.
      * done.
    + intros [= <- -> <-]. simpl. rewrite app_nil_r. auto.
Qed.

Lemma ServerSetup_unparsed options err info :
  ParsePT2ClientParameters options = inr err ->
  let r := ServerSetup ParsePT2ClientParameters info options in
  r.2 = Return false [] /\ acceptLoops r.1 = [] /\
  (Bindaddrs info <> [] ->
   r.1 = [Log Error (Msg "Error parsing transport options: %s" [options])]).
Proof.
  intros Hp. unfold ServerSetup.
  destruct (Bindaddrs info) as [|ba rest]; simpl; [done|].
  by rewrite Hp.
Qed.

End Server.

(** C1, as the code has it.  In [ClientSetup] [net.Listen] is called
    once for each name, in order, whatever the calls before it returned:
    a name whose listener cannot be opened is reported as failed and
    skipped, and the names after it are still tried; for a name whose
    listener is opened an accept loop is started on that listener and
    the listener is reported; the listeners returned are the opened
    ones, in order, and [launched] says whether there is one.  In
    [ServerSetup] nothing is skipped.  With options that do not parse
    the first bind address ends the setup: the error is logged, nothing
    is started and [launched] is false.  With options that parse, when
    every bind address resolves a listener is started for each, and
    [launched] says whether there is one; the first bind address whose
    transport does not resolve ends the setup, with accept loops started
    for the bind addresses before it and none for those after it.  In
    every case [launched] is true only with a listener started. *)
Theorem setup_launches World net_Listen ParsePT2ClientParameters options :
  (forall socksAddr proxy names (w : World),
     let rs := listens net_Listen socksAddr names w in
     let '(evs, (launched, listeners), _) :=
       ClientSetup World net_Listen socksAddr proxy names options w in
     evs = concat (clientEntry proxy options <$> rs) ++ [CmethodsDone] /\
     listeners = opened rs /\
     announced evs = names /\ acceptLoops evs = listeners /\
     (launched = true <-> listeners <> [])) /\
  (forall socksAddr proxy name rest (w w' : World) err launched listeners,
     net_Listen socksAddr w = (inr err, w') ->
     clientSetupLoop World net_Listen socksAddr proxy (name :: rest) options w
       launched listeners =
     let '(evs, r, w'') :=
       clientSetupLoop World net_Listen socksAddr proxy rest options w'
         launched listeners in
     (CmethodError name err :: evs, r, w'')) /\
  (forall err info,
     ParsePT2ClientParameters options = inr err ->
     let r := ServerSetup ParsePT2ClientParameters info options in
     r.2 = Return false [] /\ acceptLoops r.1 = [] /\
     (Bindaddrs info <> [] ->
      r.1 = [Log Error (Msg "Error parsing transport options: %s" [options])])) /\
  (forall args info lns,
     ParsePT2ClientParameters options = inl args ->
     Forall2 (fun ba ln => listenerOf args ba = Some ln) (Bindaddrs info) lns ->
     let r := ServerSetup ParsePT2ClientParameters info options in
     r.2 = Return (bool_decide (Bindaddrs info <> [])) lns /\
     acceptLoops r.1 = lns) /\
  (forall args info good lns bad rest,
     ParsePT2ClientParameters options = inl args ->
     Bindaddrs info = good ++ bad :: rest ->
     Forall2 (fun ba ln => listenerOf args ba = Some ln) good lns ->
     listenerOf args bad = None ->
     let r := ServerSetup ParsePT2ClientParameters info options in
     acceptLoops r.1 = lns /\
     r = serverSetupLoop ParsePT2ClientParameters (good ++ [bad]) options
           false []) /\
  (forall info evs listeners,
     ServerSetup ParsePT2ClientParameters info options
       = (evs, Return true listeners) ->
     listeners = acceptLoops evs /\ listeners <> []).
Proof.
  repeat apply conj.
  - intros socksAddr proxy names w rs. unfold ClientSetup.
    pose proof (clientSetupLoop_spec World net_Listen socksAddr proxy names
                  options w false []) as H.
    pose proof (clientSetupLoop_listens World net_Listen socksAddr proxy names
                  options w false []) as H'.
    destruct (clientSetupLoop _ _ _ _ names _ w false [])
      as [[evs [launched listeners]] w'].
    simpl in H, H'. destruct H as (Ha & Hl & Hb & _).
    destruct H' as [He [= _ Hl']]. fold rs in He, Hl'.
    rewrite Hb, <- Hl. repeat split; try done.
    + intros H. by apply bool_decide_eq_true in H.
    + intros H. by apply bool_decide_eq_true.
  - intros socksAddr proxy name rest w w' err launched listeners Hl.
    simpl. by rewrite Hl.
  - intros err info Hp. by apply ServerSetup_unparsed with err.
  - intros args info lns Hp H. unfold ServerSetup.
    apply (serverSetupLoop_all _ _ _ _ _ false [] Hp H).
  - intros args info good lns bad rest Hp Hb H Hbad. unfold ServerSetup.
    rewrite Hb.
    apply (serverSetupLoop_first_failure _ _ _ _ _ _ _ false [] Hp H Hbad).
  - intros info evs listeners H. unfold ServerSetup in H.
    apply serverSetupLoop_launched in H as [-> [?|Hne]]; done.
Qed.

(** After a bind address that does not resolve, here shadow without its
    password, the next one is not tried, although on its own it
    launches: nothing is started and [launched] is false. *)
Lemma ServerSetup_stops_at_unresolved :
  let ln := TransportListener Obfs2Transport (SampleNet.local 2223) in
  ServerSetup SampleNet.noArgs
    (SampleNet.serverInfo [SampleNet.bindaddr "obfs2" 2223]) EmptyString
  = ([GoServerAcceptLoop "obfs2" ln;
      Log Info (Msg "%s - registered listener: %s" ["obfs2"]);
      SmethodsDone], Return true [ln]) /\
  ServerSetup SampleNet.noArgs
    (SampleNet.serverInfo [SampleNet.bindaddr "shadow" 2222;
                         SampleNet.bindaddr "obfs2" 2223]) EmptyString
  = ([], Return false []).
Proof. split; vm_compute; reflexivity. Qed.

(** Three names and a network that refuses the second listener: the
    second name is reported as failed and the third one is still
    served. *)
Lemma ClientSetup_skips_failed_bind :
  let first := TcpListener 2 "127.0.0.1:1443" in
  let third := TcpListener 0 "127.0.0.1:1443" in
  ClientSetup (list (option error)) SampleNet.scripted "127.0.0.1:1443" None
    ["obfs2"; "obfs4"; "shadow"] EmptyString [None; Some SampleNet.inUse; None]
  = ([GoClientAcceptLoop "obfs2" first None EmptyString;
      Cmethod "obfs2" first;
      Log Info (Msg "%s - registered listener: %s" ["obfs2"]);
      CmethodError "obfs4" SampleNet.inUse;
      GoClientAcceptLoop "shadow" third None EmptyString;
      Cmethod "shadow" third;
      Log Info (Msg "%s - registered listener: %s" ["shadow"]);
      CmethodsDone],
     (true, [first; third]), []).
Proof. reflexivity. Qed.

Lemma setup_launches_witness :
  let first := TcpListener 2 "127.0.0.1:1443" in
  let third := TcpListener 0 "127.0.0.1:1443" in
  let ln := TransportListener Obfs2Transport (SampleNet.local 2223) in
  let unparsed (options : string) : Args.t + error :=
    inr (Msg "bad options" []) in
  (let '(evs, (launched, listeners), _) :=
     ClientSetup (list (option error)) SampleNet.scripted "127.0.0.1:1443"
       None ["obfs2"; "obfs4"; "shadow"] EmptyString
       [None; Some SampleNet.inUse; None] in
   evs = [GoClientAcceptLoop "obfs2" first None EmptyString;
          Cmethod "obfs2" first;
          Log Info (Msg "%s - registered listener: %s" ["obfs2"]);
          CmethodError "obfs4" SampleNet.inUse;
          GoClientAcceptLoop "shadow" third None EmptyString;
          Cmethod "shadow" third;
          Log Info (Msg "%s - registered listener: %s" ["shadow"]);
          CmethodsDone] /\
   listeners = [first; third] /\
   announced evs = ["obfs2"; "obfs4"; "shadow"] /\
   acceptLoops evs = listeners /\
   (launched = true <-> listeners <> [])) /\
  clientSetupLoop (list (option error)) SampleNet.scripted "127.0.0.1:1443"
    None ["obfs4"; "shadow"] EmptyString [Some SampleNet.inUse; None]
    true [first]
  = ([CmethodError "obfs4" SampleNet.inUse;
      GoClientAcceptLoop "shadow" third None EmptyString;
      Cmethod "shadow" third;
      Log Info (Msg "%s - registered listener: %s" ["shadow"]);
      CmethodsDone], (true, [first; third]), []) /\
  (let r := ServerSetup unparsed
              (SampleNet.serverInfo [SampleNet.bindaddr "obfs2" 2223])
              "cert" in
   r.2 = Return false [] /\ acceptLoops r.1 = [] /\
   r.1 = [Log Error (Msg "Error parsing transport options: %s" ["cert"])]) /\
  (let r := ServerSetup SampleNet.noArgs
              (SampleNet.serverInfo [SampleNet.bindaddr "obfs2" 2223])
              EmptyString in
   r.2 = Return true [ln] /\ acceptLoops r.1 = [ln]) /\
  (let r := ServerSetup SampleNet.noArgs
              (SampleNet.serverInfo [SampleNet.bindaddr "obfs2" 2223;
                                   SampleNet.bindaddr "shadow" 2222;
                                   SampleNet.bindaddr "obfs2" 2224])
              EmptyString in
   acceptLoops r.1 = [ln] /\
   r = serverSetupLoop SampleNet.noArgs
         [SampleNet.bindaddr "obfs2" 2223; SampleNet.bindaddr "shadow" 2222]
         EmptyString false []) /\
  ([ln] = acceptLoops
            [GoServerAcceptLoop "obfs2" ln;
             Log Info (Msg "%s - registered listener: %s" ["obfs2"]);
             SmethodsDone] /\
   [ln] <> []).
Proof.
  intros first third ln unparsed.
  pose proof (setup_launches (list (option error)) SampleNet.scripted
                SampleNet.noArgs EmptyString)
    as (Hclient & Hskip & _ & Hall & Hfirst & Hlaunched).
  pose proof (setup_launches (list (option error)) SampleNet.scripted
                unparsed "cert") as (_ & _ & Hunparsed & _).
  split; [|split; [|split; [|split; [|split]]]].
  - exact (Hclient "127.0.0.1:1443" None ["obfs2"; "obfs4"; "shadow"]
             [None; Some SampleNet.inUse; None]).
  - exact (Hskip "127.0.0.1:1443" None "obfs4" ["shadow"]
             [Some SampleNet.inUse; None] [None] SampleNet.inUse true [first]
             eq_refl).
  - destruct (Hunparsed (Msg "bad options" [])
                (SampleNet.serverInfo [SampleNet.bindaddr "obfs2" 2223])
                eq_refl) as (Hr & Hloops & Hevs).
    split; [exact Hr|]. split; [exact Hloops|]. apply Hevs. discriminate.
  - apply (Hall ∅ (SampleNet.serverInfo [SampleNet.bindaddr "obfs2" 2223])
             [ln] eq_refl).
    constructor; [reflexivity|constructor].
  - apply (Hfirst ∅
             (SampleNet.serverInfo [SampleNet.bindaddr "obfs2" 2223;
                                  SampleNet.bindaddr "shadow" 2222;
                                  SampleNet.bindaddr "obfs2" 2224])
             [SampleNet.bindaddr "obfs2" 2223] [ln]
             (SampleNet.bindaddr "shadow" 2222)
             [SampleNet.bindaddr "obfs2" 2224] eq_refl eq_refl);
      [constructor; [reflexivity|constructor]|reflexivity].
  - apply (Hlaunched (SampleNet.serverInfo [SampleNet.bindaddr "obfs2" 2223])
             [GoServerAcceptLoop "obfs2" ln;
              Log Info (Msg "%s - registered listener: %s" ["obfs2"]);
              SmethodsDone] [ln]).
    vm_compute. reflexivity.
Defined.

(** A listener whose accept loop runs is forgotten when a later bind
    address ends the setup in [return false, nil]: the setup reports
    that nothing was launched. *)
Lemma ServerSetup_forgets_launched :
  let ln := TransportListener Obfs2Transport (SampleNet.local 2223) in
  ServerSetup SampleNet.noArgs
    (SampleNet.serverInfo [SampleNet.bindaddr "obfs2" 2223;
                         SampleNet.bindaddr "shadow" 2222]) EmptyString
  = ([GoServerAcceptLoop "obfs2" ln;
      Log Info (Msg "%s - registered listener: %s" ["obfs2"])],
     Return false []).
Proof. vm_compute; reflexivity. Qed.

(** ** The obfs4 branch of ServerSetup *)

(** X7. What the obfs4 branch does with a certificate and a first value
    of [iat-mode]: the transport is made when [strconv.Atoi] fails on the
    value and the setup returns when it succeeds. *)
Lemma transportOfName_obfs4 args cert0 certs iat0 iats :
  args !! "cert" = Some (cert0 :: certs) ->
  args !! "iat-mode" = Some (iat0 :: iats) ->
  transportOfName "obfs4" args =
    match Go.strconv_Atoi iat0 with
    | (iatMode, Some _) => ([], Bound (Obfs4Client cert0 iatMode))
    | (_, None) =>
        ([Log Error (Msg "obfs4 transport bad iat-mode value: %s"
                         (iat0 :: iats))], BareReturn)
    end.
Proof.
  intros Hc Hi. unfold transportOfName.
  destruct (decide ("obfs4" = "obfs2")) as [?|_]; [done|].
  destruct (decide ("obfs4" = "obfs4")) as [_|?]; [|done].
  rewrite Hc, Hi. reflexivity.
Qed.

(** C3, on the code.  An obfs4 bind address with a certificate and
    [iat-mode=0]: the setup logs a bad [iat-mode] value and returns
    without a listener. *)
Theorem ServerSetup_obfs4_integer_iat_mode :
  ServerSetup SampleNet.obfs4Args
    (SampleNet.serverInfo [SampleNet.bindaddr "obfs4" 2222]) "cert=AAAA;iat-mode=0"
  = ([Log Error (Msg "obfs4 transport bad iat-mode value: %s" ["0"])],
     Return false []).
Proof. vm_compute; reflexivity. Qed.

(** With an [iat-mode] that is no integer a listener is started,
    its transport made with the mode 0 that [strconv.Atoi] returns with
    its error. *)
Lemma ServerSetup_obfs4_bad_iat_mode :
  let ln := TransportListener (Obfs4Client "AAAA" 0) (SampleNet.local 2222) in
  ServerSetup
    (fun _ => inl (<["cert" := ["AAAA"]]> (<["iat-mode" := ["fast"]]> ∅)))
    (SampleNet.serverInfo [SampleNet.bindaddr "obfs4" 2222])
    "cert=AAAA;iat-mode=fast"
  = ([GoServerAcceptLoop "obfs4" ln;
      Log Info (Msg "%s - registered listener: %s" ["obfs4"]);
      SmethodsDone], Return true [ln]).
Proof. vm_compute; reflexivity. Qed.

(** ** The accept loops *)

Lemma clientAcceptLoop_running name ln proxyURI options accepts :
  permanent ∉ accepts ->
  clientAcceptLoop name ln proxyURI options accepts
  = (clientHandlers name proxyURI options accepts, Accepting).
Proof.
  induction accepts as [|a accepts IH]; [done|].
  intros Hn. apply not_elem_of_cons in Hn as [Ha Hn]. specialize (IH Hn).
  destruct a as [conn|[[]|]]; simpl; try by rewrite IH.
  by destruct Ha.
Qed.

Lemma serverAcceptLoop_running name ln accepts :
  permanent ∉ accepts ->
  serverAcceptLoop name ln accepts = (serverHandlers name accepts, Accepting).
Proof.
  induction accepts as [|a accepts IH]; [done|].
  intros Hn. apply not_elem_of_cons in Hn as [Ha Hn]. specialize (IH Hn).
  destruct a as [conn|[[]|]]; simpl; try by rewrite IH.
  by destruct Ha.
Qed.

Lemma clientAcceptLoop_ended name ln proxyURI options before after :
  permanent ∉ before ->
  clientAcceptLoop name ln proxyURI options (before ++ permanent :: after)
  = (clientHandlers name proxyURI options before
       ++ [Log Error (Msg "serverAcceptLoop failed" []); CloseListener ln],
     Ended).
Proof.
  induction before as [|a before IH]; [done|].
  intros Hn. apply not_elem_of_cons in Hn as [Ha Hn]. specialize (IH Hn).
  destruct a as [conn|[[]|]]; simpl; try by rewrite IH.
  by destruct Ha.
Qed.

Lemma serverAcceptLoop_ended name ln before after :
  permanent ∉ before ->
  (serverAcceptLoop name ln (before ++ permanent :: after)).2 = Ended.
Proof.
  induction before as [|a before IH]; [done|].
  intros Hn. apply not_elem_of_cons in Hn as [Ha Hn]. specialize (IH Hn).
  destruct a as [conn|[[]|]]; simpl in *;
    first [ done | by destruct Ha | by destruct (serverAcceptLoop name ln _) ].
Qed.

Lemma clientAcceptLoop_closes_own name ln proxyURI options accepts ln' :
  CloseListener ln' ∈ (clientAcceptLoop name ln proxyURI options accepts).1 ->
  ln' = ln.
Proof.
  induction accepts as [|a accepts IH]; simpl; [by intros ?%elem_of_nil|].
  destruct a as [conn|[[]|]]; simpl; try done.
  - destruct (clientAcceptLoop name ln proxyURI options accepts) as [evs s].
    simpl in *. intros [?|?]%elem_of_cons; [done|auto].
  - rewrite !elem_of_cons, elem_of_nil. intros [?|[?|[]]]; congruence.
Qed.

(** C4, as the code has it.  In both accept loops an error of
    [ln.Accept()] that is not a permanent one, whether a temporary
    [net.Error] or an error of another kind, is passed over without a log
    line, and without a permanent error the loop keeps accepting, a
    handler started for each connection; the first permanent error ends
    the loop, and the client's loop logs it and closes its listener, and
    no other one, as the last thing it does. *)
Theorem accept_loops name ln proxyURI options :
  (forall err rest, err <> NetError false ->
     clientAcceptLoop name ln proxyURI options (AcceptFailed err :: rest)
     = clientAcceptLoop name ln proxyURI options rest /\
     serverAcceptLoop name ln (AcceptFailed err :: rest)
     = serverAcceptLoop name ln rest) /\
  (forall accepts, permanent ∉ accepts ->
     clientAcceptLoop name ln proxyURI options accepts
     = (clientHandlers name proxyURI options accepts, Accepting) /\
     serverAcceptLoop name ln accepts
     = (serverHandlers name accepts, Accepting)) /\
  (forall before after, permanent ∉ before ->
     clientAcceptLoop name ln proxyURI options (before ++ permanent :: after)
     = (clientHandlers name proxyURI options before
          ++ [Log Error (Msg "serverAcceptLoop failed" []); CloseListener ln],
        Ended) /\
     (serverAcceptLoop name ln (before ++ permanent :: after)).2 = Ended) /\
  (forall accepts ln',
     CloseListener ln' ∈ (clientAcceptLoop name ln proxyURI options accepts).1 ->
     ln' = ln).
Proof.
  repeat apply conj.
  - intros [[]|] rest Hne; done.
  - intros accepts Hn. split.
    + by apply clientAcceptLoop_running.
    + by apply serverAcceptLoop_running.
  - intros before after Hn. split.
    + by apply clientAcceptLoop_ended.
    + by apply serverAcceptLoop_ended.
  - apply clientAcceptLoop_closes_own.
Qed.

(** A temporary error leaves no trace in either loop: nothing is
    logged. *)
Lemma accept_loops_log_nothing :
  let ln := TcpListener 0 "127.0.0.1:1443" in
  clientAcceptLoop "obfs2" ln None EmptyString [AcceptFailed (NetError true)]
  = ([], Accepting) /\
  serverAcceptLoop "obfs2" ln [AcceptFailed (NetError true)] = ([], Accepting).
Proof. split; reflexivity. Qed.

Lemma accept_loops_witness :
  let ln := TcpListener 0 "127.0.0.1:1443" in
  clientAcceptLoop "obfs2" ln None EmptyString
    ([Accepted 1%nat; AcceptFailed (NetError true)]
       ++ permanent :: [Accepted 2%nat])
  = ([GoClientHandler "obfs2" 1%nat None EmptyString;
      Log Error (Msg "serverAcceptLoop failed" []); CloseListener ln], Ended).
Proof.
  apply (proj1 (proj1 (proj2 (proj2
           (accept_loops "obfs2" (TcpListener 0 "127.0.0.1:1443") None
              EmptyString)))
         [Accepted 1%nat; AcceptFailed (NetError true)] [Accepted 2%nat]
         ltac:(rewrite !not_elem_of_cons; repeat split;
               [discriminate|discriminate|apply not_elem_of_nil]))).
Defined.

(** The server's loop ends on a permanent error with its listener as it
    was: nothing is closed. *)
Lemma serverAcceptLoop_leaves_listener :
  serverAcceptLoop "obfs2" (TcpListener 0 "127.0.0.1:2222") [permanent]
  = ([], Ended).
Proof. reflexivity. Qed.

(** ** The client handler *)

Section Handler.

Variable H : HandlerEnv.
Variables (name : string) (conn : Conn) (proxyURI : option URL)
  (options : string).
Variables (socksReq : SocksRequest) (args : Args.t) (tr : ClientTransport).

Hypothesis handshake :
  socks5_Handshake H conn (bool_decide (options = EmptyString)) = inl socksReq.
Hypothesis parsed : ParseOptions H options = inl args.
Hypothesis dialer : ArgsToDialer H (Target socksReq) name args None = Some tr.
Hypothesis proxied :
  match proxyURI with
  | Some u => exists d, proxy_FromURL H u = inl d
  | None => True
  end.

Lemma clientHandler_dial :
  clientHandler H name conn proxyURI options =
  match transport_Dial H tr with
  | inr _ =>
      (beforeDial
         ++ [Log Error (Msg "%s(%s) - outgoing connection failed: %s" [name]);
             Reply (ErrorToReplyCode H None)], HandlerReturned)
  | inl remote =>
      match socksReq_Reply H ReplySucceeded with
      | Some _ =>
          (beforeDial
             ++ [Reply ReplySucceeded;
                 Log Error (Msg "%s(%s) - SOCKS reply failed: %s" [name])],
           HandlerReturned)
      | None =>
          match copyLoop_end H conn remote with
          | RelayBlocked =>
              (beforeDial ++ [Reply ReplySucceeded; CopyLoop conn remote],
               HandlerInRelay)
          | Relayed (Some _) =>
              (beforeDial
                 ++ [Reply ReplySucceeded; CopyLoop conn remote;
                     Log Warn (Msg "%s(%s) - closed connection: %s" [name])],
               HandlerReturned)
          | Relayed None =>
              (beforeDial
                 ++ [Reply ReplySucceeded; CopyLoop conn remote;
                     Log Info (Msg "%s(%s) - closed connection" [name])],
               HandlerReturned)
          end
      end
  end.
Proof.
  unfold clientHandler. rewrite handshake, parsed, dialer.
  assert (match proxyURI with
          | Some u =>
              match proxy_FromURL H u with
              | inr _ =>
                  ([Log Error
                      (Msg "%s(%s) - failed to obtain proxy dialer: %s" [name]);
                    Reply ReplyGeneralFailure], false)
              | inl _ => ([], true)
              end
          | None => ([], true)
          end = (@nil event, true)) as ->.
  { destruct proxyURI as [u|]; [|done]. destruct proxied as [d ->]. done. }
  reflexivity.
Qed.

End Handler.

(** C8, as the code has it.  For a connection whose handshake, options,
    dial capability and proxy are in order: when the dial fails the
    handler sends one reply, a failure as long as [ErrorToReplyCode]
    gives no success, and returns, without entering the relay and
    without closing the connection; when the dial succeeds the one reply
    is the success, it comes first, and the relay follows it exactly
    when it could be sent. *)
Theorem clientHandler_replies H name conn proxyURI options socksReq args tr :
  socks5_Handshake H conn (bool_decide (options = EmptyString)) = inl socksReq ->
  ParseOptions H options = inl args ->
  ArgsToDialer H (Target socksReq) name args None = Some tr ->
  match proxyURI with
  | Some u => exists d, proxy_FromURL H u = inl d
  | None => True
  end ->
  (forall err, ErrorToReplyCode H err <> ReplySucceeded) ->
  let r := clientHandler H name conn proxyURI options in
  (forall err2, transport_Dial H tr = inr err2 ->
     r.2 = HandlerReturned /\ Forall quiet r.1 /\
     exists code, replies r.1 = [code] /\ code <> ReplySucceeded) /\
  (forall remote, transport_Dial H tr = inl remote ->
     replies r.1 = [ReplySucceeded] /\
     (forall c, CloseConn c ∉ r.1) /\
     match socksReq_Reply H ReplySucceeded with
     | None =>
         exists rest,
           r.1 = beforeDial ++ Reply ReplySucceeded :: CopyLoop conn remote
                   :: rest /\ Forall quiet rest
     | Some _ => Forall quiet r.1
     end).
Proof.
  intros Hh Hp Hd Hx Hcode r. subst r.
  rewrite (clientHandler_dial H name conn proxyURI options socksReq args tr
             Hh Hp Hd Hx).
  split.
  - intros err2 ->. simpl. split; [done|]. split; [by repeat constructor|].
    eexists. split; [done|]. apply Hcode.
  - intros remote ->.
    destruct (socksReq_Reply H ReplySucceeded) as [e|].
    + simpl. split; [done|]. split; [|by repeat constructor].
      intros c. rewrite !elem_of_cons, elem_of_nil. intuition discriminate.
    + destruct (copyLoop_end H conn remote) as [[e|]|]; simpl;
        (split; [done|]); (split;
          [ intros c; rewrite !elem_of_cons, elem_of_nil; intuition discriminate
          | eexists; split; [reflexivity|by repeat constructor] ]).
Qed.

(** A dial that is refused: the handler replies and returns, and the
    connection is not closed. *)
Lemma clientHandler_leaves_connection :
  clientHandler SampleNet.refusing "obfs2" 7%nat None "cert=AAAA"
  = ([Println "Got dialer";
      Log Error (Msg "%s(%s) - outgoing connection failed: %s" ["obfs2"]);
      Reply ReplyGeneralFailure], HandlerReturned) /\
  CloseConn 7%nat ∉
    (clientHandler SampleNet.refusing "obfs2" 7%nat None "cert=AAAA").1.
Proof.
  split; [reflexivity|].
  change (clientHandler SampleNet.refusing "obfs2" 7%nat None "cert=AAAA").1
    with [Println "Got dialer";
          Log Error (Msg "%s(%s) - outgoing connection failed: %s" ["obfs2"]);
          Reply ReplyGeneralFailure].
  rewrite !elem_of_cons, elem_of_nil. intuition discriminate.
Qed.

Lemma clientHandler_replies_witness :
  let r := clientHandler SampleNet.refusing "obfs2" 7%nat None "cert=AAAA" in
  r.2 = HandlerReturned /\ Forall quiet r.1 /\
  exists code, replies r.1 = [code] /\ code <> ReplySucceeded.
Proof.
  apply (proj1 (clientHandler_replies SampleNet.refusing "obfs2" 7%nat None
                  "cert=AAAA" {| Target := "192.0.2.1:443" |} ∅ 0%nat
                  eq_refl eq_refl eq_refl I
                  ltac:(intros [e|]; discriminate))
               SampleNet.refused eq_refl).
Defined.

(** X4. The reply to a failed dial is made from the error of the
    handshake, which is nil by then, and not from the error of the dial:
    whatever that one is, the code is the same. *)
Lemma clientHandler_reply_ignores_dial_error H name conn proxyURI options
    socksReq args tr err2 :
  socks5_Handshake H conn (bool_decide (options = EmptyString)) = inl socksReq ->
  ParseOptions H options = inl args ->
  ArgsToDialer H (Target socksReq) name args None = Some tr ->
  match proxyURI with
  | Some u => exists d, proxy_FromURL H u = inl d
  | None => True
  end ->
  transport_Dial H tr = inr err2 ->
  replies (clientHandler H name conn proxyURI options).1
  = [ErrorToReplyCode H None].
Proof.
  intros Hh Hp Hd Hx Hdial.
  rewrite (clientHandler_dial H name conn proxyURI options socksReq args tr
             Hh Hp Hd Hx), Hdial.
  reflexivity.
Qed.

(** ** copyLoop *)

Lemma steps_trans s1 s2 s3 : steps s1 s2 -> steps s2 s3 -> steps s1 s3.
Proof. induction 1; eauto using steps. Qed.

Lemma steps_one s1 s2 : step s1 s2 -> steps s1 s2.
Proof. eauto using steps. Qed.

(** An invariant of the steps holds along every run. *)
Lemma steps_invariant (I : state -> Prop) :
  (forall s s', I s -> step s s' -> I s') ->
  forall s s', steps s s' -> I s -> I s'.
Proof. intros Hstep s s' Hrun. induction Hrun; eauto. Qed.

(** *** The caller waits for both goroutines *)

Lemma gstep_unfinished g ch k g' ch' k' m :
  gstep g ch k g' ch' k' ->
  k = (unfinished g + m)%nat -> k' = (unfinished g' + m)%nat.
Proof. destruct 1; simpl; lia. Qed.

Lemma counted_step s s' : counted s -> step s s' -> counted s'.
Proof.
  unfold counted. intros Hc Hs.
  destruct Hs as [s g ch k _ Hg|s g ch k _ Hg|s _ _]; simpl; [| |done].
  - by apply (gstep_unfinished _ _ _ _ _ _ _ Hg).
  - rewrite Nat.add_comm. apply (gstep_unfinished _ _ _ _ _ _ _ Hg). lia.
Qed.

Lemma joined_step s s' : joined s -> step s s' -> joined s'.
Proof.
  intros [Hc Hr] Hs. split; [by eapply counted_step|].
  destruct Hs as [s g ch k _ Hg|s g ch k _ Hg|s _ Hw]; simpl; try done.
  intros _. unfold counted in Hc. rewrite Hw in Hc.
  destruct (ab s), (ba s); simpl in Hc; try done; lia.
Qed.

(** X2. When [copyLoop] has returned both goroutines have finished. *)
Lemma copyLoop_joins a2b b2a s r :
  steps (start a2b b2a) s -> returned s = Some r ->
  ab s = Finished /\ ba s = Finished.
Proof.
  intros Hrun Hr.
  assert (joined s) as [_ Hj].
  { eapply (steps_invariant joined); [apply joined_step|exact Hrun|].
    split; [reflexivity|done]. }
  apply Hj. by rewrite Hr.
Qed.

(** *** A direction that does not end keeps the caller waiting *)

Lemma blocked_ba_step s s' : blocked_ba s -> step s s' -> blocked_ba s'.
Proof.
  intros (Hr & [n Hb] & Hc) Hs.
  assert (counted s') as Hc' by by eapply counted_step.
  destruct Hs as [s g ch k _ Hg|s g ch k _ Hg|s _ Hw].
  - split; [done|]. split; [by exists n|done].
  - split; [done|]. split; [|done]. simpl.
    rewrite Hb in Hg. inversion Hg; subst. by eexists.
  - unfold counted in Hc. rewrite Hw, Hb in Hc. simpl in Hc. lia.
Qed.

Lemma blocked_ab_step s s' : blocked_ab s -> step s s' -> blocked_ab s'.
Proof.
  intros (Hr & [n Hb] & Hc) Hs.
  assert (counted s') as Hc' by by eapply counted_step.
  destruct Hs as [s g ch k _ Hg|s g ch k _ Hg|s _ Hw].
  - split; [done|]. split; [|done]. simpl.
    rewrite Hb in Hg. inversion Hg; subst. by eexists.
  - split; [done|]. split; [by exists n|done].
  - unfold counted in Hc. rewrite Hw, Hb in Hc. simpl in Hc. lia.
Qed.

Lemma copyLoop_needs_both a2b b2a r :
  copyLoop_returns a2b b2a r ->
  ending a2b <> Blocks /\ ending b2a <> Blocks.
Proof.
  intros (s & Hrun & Hr). split; intros Hb.
  - assert (blocked_ab s) as [Hn _]; [|congruence].
    eapply (steps_invariant blocked_ab); [apply blocked_ab_step|exact Hrun|].
    split; [done|]. split; [|reflexivity]. simpl. rewrite Hb. by eexists.
  - assert (blocked_ba s) as [Hn _]; [|congruence].
    eapply (steps_invariant blocked_ba); [apply blocked_ba_step|exact Hrun|].
    split; [done|]. split; [|reflexivity]. simpl. rewrite Hb. by eexists.
Qed.

(** C2, on the code.  The connection [a] is at the end of its stream, so
    [io.Copy(b, a)] returns nil at once, and [b] neither delivers nor
    ends, so [io.Copy(a, b)] does not return: under no scheduling does
    [copyLoop] return. *)
Theorem copyLoop_waits_for_silent_peer :
  forall r,
    ~ copyLoop_returns {| chunks := 0; ending := Returns None |}
        {| chunks := 0; ending := Blocks |} r.
Proof. intros r Hr. by apply copyLoop_needs_both in Hr as [_ Hb]. Qed.

(** *** What the call returns *)

Lemma gstep_results e0 e1 e2 g ch k g' ch' k' m :
  gstep g ch k g' ch' k' ->
  (forall n e, g = Copying n e -> e = Returns e0) ->
  e0 = e1 \/ e0 = e2 ->
  Forall (fun e => e = e1 \/ e = e2) ch ->
  length ch = (sent g + m)%nat ->
  (forall n e, g' = Copying n e -> e = Returns e0) /\
  Forall (fun e => e = e1 \/ e = e2) ch' /\
  length ch' = (sent g' + m)%nat.
Proof.
  intros Hg He H0 Hch Hlen. destruct Hg; simpl in *.
  - repeat split; try done. intros n' e' [= _ <-]. by eapply He.
  - repeat split; try done.
    + apply Forall_app; split; [done|]. constructor; [|done].
      specialize (He _ _ eq_refl). by injection He as ->.
    + rewrite length_app. simpl. lia.
  - done.
Qed.

Lemma results_step e1 e2 s s' :
  counted s -> results e1 e2 s -> step s s' -> results e1 e2 s'.
Proof.
  intros Hc (Hab & Hba & Hch & Hlen & Hret) Hs.
  destruct Hs as [s g ch k Hr Hg|s g ch k Hr Hg|s Hr Hw]; simpl.
  - destruct (gstep_results e1 e1 e2 _ _ _ _ _ _ (sent (ba s)) Hg Hab
                (or_introl eq_refl) Hch (Hlen Hr)) as (? & ? & ?).
    repeat split; simpl; try done.
  - destruct (gstep_results e2 e1 e2 _ _ _ _ _ _ (sent (ab s)) Hg Hba
                (or_intror eq_refl) Hch) as (? & ? & ?).
    { rewrite (Hlen Hr). lia. }
    repeat split; simpl; try done. intros _. lia.
  - repeat split; simpl; try done.
    + by apply Forall_tail.
    + intros r [= <-]. specialize (Hlen Hr).
      unfold counted in Hc. rewrite Hw in Hc.
      destruct (ab s), (ba s), (errChan s) as [|first ch0];
        simpl in *; try done; try lia.
      by inversion Hch.
Qed.

Lemma copyLoop_returns_one_of a2b b2a e1 e2 r :
  ending a2b = Returns e1 -> ending b2a = Returns e2 ->
  copyLoop_returns a2b b2a r -> r = e1 \/ r = e2.
Proof.
  intros H1 H2 (s & Hrun & Hr).
  assert (counted s /\ results e1 e2 s) as [_ (_ & _ & _ & _ & Hres)];
    [|by apply Hres].
  eapply (steps_invariant (fun s => counted s /\ results e1 e2 s));
    [|exact Hrun|].
  - intros s1 s2 [Hc Hres] Hs. split; [by eapply counted_step|].
    by eapply results_step.
  - split; [reflexivity|]. repeat split; simpl; try done.
    + by intros n e [= _ <-].
    + by intros n e [= _ <-].
Qed.

(** The goroutine of [io.Copy(b, a)] runs to its end while the other one
    stands still, and the other way round. *)
Lemma run_ab n e g ch k :
  steps {| ab := Copying n (Returns e); ba := g; errChan := ch; wg := k;
           returned := None |}
        {| ab := Finished; ba := g; errChan := ch ++ [e]; wg := Nat.pred k;
           returned := None |}.
Proof.
  induction n as [|n IH].
  - eapply steps_step; [apply step_ab; [done|apply g_send]|].
    eapply steps_step; [apply step_ab; [done|apply g_done]|]. apply steps_refl.
  - eapply steps_step; [apply step_ab; [done|apply g_copy]|]. exact IH.
Qed.

Lemma run_ba n e g ch k :
  steps {| ab := g; ba := Copying n (Returns e); errChan := ch; wg := k;
           returned := None |}
        {| ab := g; ba := Finished; errChan := ch ++ [e]; wg := Nat.pred k;
           returned := None |}.
Proof.
  induction n as [|n IH].
  - eapply steps_step; [apply step_ba; [done|apply g_send]|].
    eapply steps_step; [apply step_ba; [done|apply g_done]|]. apply steps_refl.
  - eapply steps_step; [apply step_ba; [done|apply g_copy]|]. exact IH.
Qed.

Lemma copyLoop_returns_first a2b b2a e1 e2 :
  ending a2b = Returns e1 -> ending b2a = Returns e2 ->
  copyLoop_returns a2b b2a e1 /\ copyLoop_returns a2b b2a e2.
Proof.
  intros H1 H2. unfold copyLoop_returns, start. rewrite H1, H2. split.
  - eexists. split.
    + eapply steps_trans; [apply run_ab|].
      eapply steps_trans; [apply run_ba|].
      apply steps_one. by apply step_return.
    + reflexivity.
  - eexists. split.
    + eapply steps_trans; [apply run_ba|].
      eapply steps_trans; [apply run_ab|].
      apply steps_one. by apply step_return.
    + reflexivity.
Qed.

(** X1. [copyLoop] can return exactly when both directions end, and
    what it can return then is what the one direction returned and what
    the other one did: the scheduling decides which. *)
Lemma copyLoop_returns_iff a2b b2a r :
  copyLoop_returns a2b b2a r <->
  exists e1 e2,
    ending a2b = Returns e1 /\ ending b2a = Returns e2 /\ (r = e1 \/ r = e2).
Proof.
  split.
  - intros Hr. destruct (copyLoop_needs_both _ _ _ Hr) as [Ha Hb].
    destruct (ending a2b) as [e1|] eqn:H1; [|done].
    destruct (ending b2a) as [e2|] eqn:H2; [|done].
    exists e1, e2. repeat split. by eapply copyLoop_returns_one_of.
  - intros (e1 & e2 & H1 & H2 & [->| ->]);
      by apply (copyLoop_returns_first a2b b2a e1 e2).
Qed.

(** *** Every scheduling ends when both directions do *)

Lemma gstep_size g ch k g' ch' k' :
  gstep g ch k g' ch' k' -> (size g' < size g)%nat.
Proof. destruct 1; simpl; lia. Qed.

Lemma step_stepsLeft s s' : step s s' -> (stepsLeft s' < stepsLeft s)%nat.
Proof.
  unfold stepsLeft.
  destruct 1 as [s g ch k Hr Hg|s g ch k Hr Hg|s Hr Hw]; simpl; rewrite Hr.
  - apply gstep_size in Hg. lia.
  - apply gstep_size in Hg. lia.
  - lia.
Qed.

Lemma gstep_ends g ch k g' ch' k' : gstep g ch k g' ch' k' -> ends g -> ends g'.
Proof.
  destruct 1; unfold ends; try done. intros H n' e' [= _ <-]. by eapply H.
Qed.

Lemma ends_progress g ch k :
  ends g -> g <> Finished -> exists g' ch' k', gstep g ch k g' ch' k'.
Proof.
  intros He Hg. destruct g as [[|n] [e|]| |]; try done.
  - eexists _, _, _. apply g_send.
  - by destruct (He _ _ eq_refl).
  - eexists _, _, _. apply g_copy.
  - eexists _, _, _. apply g_copy.
  - eexists _, _, _. apply g_done.
Qed.

(** X3. When both directions end, a call that has not returned can
    always take a step, and every step leaves fewer steps to take: under
    every scheduling the call returns. *)
Lemma copyLoop_terminates a2b b2a s :
  ending a2b <> Blocks -> ending b2a <> Blocks ->
  steps (start a2b b2a) s ->
  (returned s = None -> exists s', step s s') /\
  (forall s', step s s' -> (stepsLeft s' < stepsLeft s)%nat).
Proof.
  intros Ha Hb Hrun. split; [|apply step_stepsLeft].
  assert (counted s /\ ends (ab s) /\ ends (ba s)) as (Hc & Hea & Heb).
  { eapply (steps_invariant
              (fun s => counted s /\ ends (ab s) /\ ends (ba s)));
      [|exact Hrun|].
    - intros s1 s2 (Hc & H1 & H2) Hs. split; [by eapply counted_step|].
      destruct Hs as [? ? ? ? _ Hg|? ? ? ? _ Hg|]; simpl; try done.
      + split; [by eapply gstep_ends|done].
      + split; [done|by eapply gstep_ends].
    - split; [reflexivity|]. split; by intros n e [= _ <-]. }
  intros Hr.
  assert (forall g, g = Finished \/ g <> Finished) as Hdec
    by (intros []; auto).
  destruct (Hdec (ab s)) as [Hfa|Hfa].
  - destruct (Hdec (ba s)) as [Hfb|Hfb].
    + eexists. apply step_return; [done|].
      unfold counted in Hc. by rewrite Hc, Hfa, Hfb.
    + destruct (ends_progress _ (errChan s) (wg s) Heb Hfb) as (g & ch & k & Hg).
      eexists. by apply (step_ba s g ch k).
  - destruct (ends_progress _ (errChan s) (wg s) Hea Hfa) as (g & ch & k & Hg).
    eexists. by apply (step_ab s g ch k).
Qed.

(** *** The scheduler that runs *)

Lemma gnext_gstep g ch k g' ch' k' :
  gnext g ch k = Some (g', ch', k') -> gstep g ch k g' ch' k'.
Proof.
  destruct g as [[|n] [e|]| |]; simpl; intros [= <- <- <-]; constructor.
Qed.

Lemma conclude_steps s : steps s (conclude s).
Proof.
  unfold conclude. destruct (returned s) eqn:Hr; [apply steps_refl|].
  destruct (wg s) eqn:Hw; [|apply steps_refl].
  apply steps_one. rewrite <- Hw. by apply step_return.
Qed.

Lemma schedule_steps choices s : steps s (schedule choices s).
Proof.
  revert s. induction choices as [|c choices IH]; intros s; simpl.
  - apply conclude_steps.
  - destruct (returned s) eqn:Hr; [apply conclude_steps|].
    destruct (wg s) eqn:Hw; [apply conclude_steps|]. rewrite <- Hw.
    destruct c.
    + destruct (gnext (ab s) (errChan s) (wg s)) as [[[g ch] k]|] eqn:Hg;
        [|apply IH].
      eapply steps_step; [|apply IH].
      apply step_ab; [done|by apply gnext_gstep].
    + destruct (gnext (ba s) (errChan s) (wg s)) as [[[g ch] k]|] eqn:Hg;
        [|apply IH].
      eapply steps_step; [|apply IH].
      apply step_ba; [done|by apply gnext_gstep].
Qed.

(** With [a] at the end of its stream and a read from [b] that fails,
    the call returns nil when the goroutine reading [a] is scheduled
    first and the error when the other one is. *)
Lemma copyLoop_first_to_finish :
  let reset := Msg "read: connection reset by peer" [] in
  let a2b := {| chunks := 1; ending := Returns None |} in
  let b2a := {| chunks := 0; ending := Returns (Some reset) |} in
  returned (schedule [true; true; true; false; false] (start a2b b2a))
    = Some None /\
  returned (schedule [false; false; true; true; true] (start a2b b2a))
    = Some (Some reset).
Proof. split; reflexivity. Qed.

Lemma copyLoop_joins_witness :
  let eof := {| chunks := 0; ending := Returns None |} in
  let s := schedule [true; true; false; false] (start eof eof) in
  ab s = Finished /\ ba s = Finished.
Proof.
  apply (copyLoop_joins {| chunks := 0; ending := Returns None |}
           {| chunks := 0; ending := Returns None |}
           (schedule [true; true; false; false]
              (start {| chunks := 0; ending := Returns None |}
                     {| chunks := 0; ending := Returns None |}))
           None (schedule_steps _ _) eq_refl).
Defined.

Lemma copyLoop_terminates_witness :
  let eof := {| chunks := 0; ending := Returns None |} in
  let s := schedule [true] (start eof eof) in
  (returned s = None -> exists s', step s s') /\
  (forall s', step s s' -> (stepsLeft s' < stepsLeft s)%nat).
Proof.
  apply (copyLoop_terminates {| chunks := 0; ending := Returns None |}
           {| chunks := 0; ending := Returns None |}
           (schedule [true]
              (start {| chunks := 0; ending := Returns None |}
                     {| chunks := 0; ending := Returns None |}))
           ltac:(discriminate) ltac:(discriminate) (schedule_steps _ _)).
Defined.

Lemma clientHandler_reply_ignores_dial_error_witness :
  replies (clientHandler SampleNet.refusing "obfs2" 7%nat None "cert=AAAA").1
  = [ReplyGeneralFailure].
Proof.
  apply (clientHandler_reply_ignores_dial_error SampleNet.refusing "obfs2"
           7%nat None "cert=AAAA" {| Target := "192.0.2.1:443" |} ∅ 0%nat
           SampleNet.refused eq_refl eq_refl eq_refl I eq_refl).
Defined.

End Socks5Spec.

(* ===================================================================== *)
(** ** More on main.go *)
(* ===================================================================== *)

Module MainExtra.

Import Dispatcher MainSpec.

(** ** The shape of a run *)

Lemma startup_showVer E f :
  showVer f = true -> startup E f = ([Print getVersion], inl (Exit 0)).
Proof. intros Hv. unfold startup. by rewrite Hv. Qed.

Lemma startup_stage E f :
  showVer f = false ->
  stage notSetup (fun o => o = Exit 1)
    (fun role => role.1 = (checkIsClient (clientMode f) (serverMode f)).1 /\
                 makeStateDir E (statePath f) = (role.2, None))
    (startup E f).
Proof.
  intros Hv. unfold stage. rewrite (startup_eq E f Hv).
  pose proof (loggerEvents_notSetup E f) as Hl.
  destruct (makeStateDir E (statePath f)) as [d [e|]]; simpl.
  - split; [|done]. apply Forall_app. split; [done|by repeat constructor].
  - done.
Qed.

Lemma resolveOptions_stage E f :
  stage notSetup (fun o => o = Exit 1)
    (fun o => o = options f /\ optionsFile f = EmptyString \/
              options f = EmptyString /\ optionsFile f <> EmptyString /\
              (o = EmptyString \/ ReadFile E (optionsFile f) = inl o))
    (resolveOptions E f).
Proof.
  unfold stage, resolveOptions.
  destruct (decide (options f ≠ EmptyString ∧ optionsFile f ≠ EmptyString))
    as [?|Hn]; [simpl; split; [repeat constructor|done]|].
  destruct (decide (optionsFile f ≠ EmptyString)) as [Hf|Hf].
  - assert (options f = EmptyString) as Ho.
    { destruct (decide (options f = EmptyString)); [done|tauto]. }
    destruct (Stat E (optionsFile f));
      [simpl; split; [repeat constructor|rewrite Ho; auto]|].
    destruct (ReadFile E (optionsFile f)) eqn:Hr;
      simpl; (split; [repeat constructor|rewrite ?Ho; auto]).
  - simpl. split; [repeat constructor|]. left. split; [done|].
    by destruct (decide (optionsFile f = EmptyString)); [|tauto].
Qed.

Lemma validate_stage E f isClient :
  stage notSetup (fun o => o = Returned)
    (fun mode => mode = (determineMode (transparent f) (udp f)).2 /\
                 0 <= mode <= 3 /\
                 validatetarget E isClient EmptyString EmptyString (target f)
                   = None /\
                 if isClient then target f = EmptyString
                 else bindAddr f <> EmptyString)
    (validate E f isClient).
Proof.
  unfold stage, validate.
  destruct (validatetarget E isClient EmptyString EmptyString (target f));
    [simpl; split; [repeat constructor|done]|].
  destruct (transparent f), (udp f), isClient; simpl;
    repeat (case_decide; simpl);
    (split; [by repeat constructor|]);
    first [ reflexivity | repeat apply conj; try done; try lia ].
  all: by destruct (decide (target f = EmptyString)); [|tauto].
Qed.

Lemma getClientNames_notSetup E v tl p :
  Forall notSetup (getClientNames E v tl p).1.
Proof. unfold getClientNames. trace_tac. Qed.

Lemma getServerBindaddrs_notSetup E b o t :
  Forall notSetup (getServerBindaddrs E b o t).1.
Proof. unfold getServerBindaddrs. trace_tac. Qed.

Lemma getServerInfo_notSetup E b o tl tg x a :
  Forall notSetup (getServerInfo E b o tl tg x a).1.
Proof.
  unfold getServerInfo.
  pose proof (getServerBindaddrs_notSetup E b o (Some tl)) as H.
  destruct (getServerBindaddrs E b o (Some tl)) as [evs [bs|err]]; simpl in H;
    trace_tac; done.
Qed.

Lemma launchClient_launched E f c :
  asClient c = true ->
  launched E f c (launchClient E f (optionsString c) (proxyMode c)).
Proof.
  intros Hc. unfold launched, launchClient.
  pose proof (getClientNames_notSetup E (Some (ptversion f))
                (Some (transportsList f)) (Some (proxy f))) as Hn.
  destruct (getClientNames E (Some (ptversion f)) (Some (transportsList f))
              (Some (proxy f))) as [evs [[p n]|err]] eqn:Hg; simpl in *.
  - right. exists evs, (ClientSetupCall (proxyMode c) (socksAddr f) p n
                          (optionsString c)).
    split; [done|]. split; [done|]. simpl. rewrite Hg. done.
  - left. split; [|done]. apply Forall_app. split; [done|].
    by repeat constructor.
Qed.

Lemma launchServer_launched E f c :
  asClient c = false ->
  launched E f c (launchServer E f (directory c) (optionsString c) (proxyMode c)).
Proof.
  intros Hc. unfold launched, launchServer. right.
  pose proof (getServerInfo_notSetup E (bindAddr f) (optionsString c)
                (transportsList f) (target f) (extorport f) (authcookie f))
    as Hn.
  destruct (getServerInfo E (bindAddr f) (optionsString c) (transportsList f)
              (target f) (extorport f) (authcookie f)) as [evs info] eqn:Hg.
  simpl in *.
  exists evs, (ServerSetupCall (proxyMode c) info (directory c) (optionsString c)).
  split; [done|]. split; [done|]. simpl. by rewrite Hg.
Qed.

Lemma launched_more E f c t (m : Proc bool) :
  Forall notSetup t -> launched E f c m ->
  launched E f c (bind (t, inr tt) (fun _ => m)).
Proof.
  intros Ht [(Hm & Hr & Hc)|(pre & e & -> & Hpre & He)].
  - left. destruct m as [t' r]. simpl in *. subst r.
    split; [by apply Forall_app|done].
  - right. exists (t ++ pre), e. simpl. rewrite <- app_assoc.
    split; [done|]. split; [by apply Forall_app|done].
Qed.

Lemma launch_launched E f c :
  0 <= proxyMode c <= 3 ->
  launched E f c
    (launch E f (asClient c) (directory c) (optionsString c) (proxyMode c)).
Proof.
  intros Hmode. unfold launch, golog_Infof, emit.
  apply (launched_more E f c [_]); [by repeat constructor|].
  destruct (asClient c) eqn:Hc.
  - apply (launched_more E f c [_]); [by repeat constructor|].
    pose proof (launchClient_launched E f c Hc) as Hl.
    destruct (proxyMode c) as [|[[|[]|]|[]|]|]; try lia; try exact Hl.
    apply (launched_more E f c [_]); [by repeat constructor|exact Hl].
  - apply (launched_more E f c [_]); [by repeat constructor|].
    pose proof (launchServer_launched E f c Hc) as Hl.
    destruct (proxyMode c) as [|[[|[]|]|[]|]|]; try lia; try exact Hl.
    all: apply (launched_more E f c [_]); [by repeat constructor|exact Hl].
Qed.

Lemma main_shape E f : shape E f (main E f).
Proof.
  unfold shape, main, main_body.
  destruct (showVer f) eqn:Hv.
  { left. by rewrite (startup_showVer E f Hv). }
  right.
  destruct (startup_stage E f Hv) as [Ht1 Hr1].
  destruct (startup E f) as [t1 [o1|role]]; simpl in *.
  { left. subst o1. auto. }
  destruct Hr1 as [Hrole Hdir].
  destruct (resolveOptions_stage E f) as [Ht2 Hr2].
  destruct (resolveOptions E f) as [t2 [o2|opts]]; simpl in *.
  { left. subst o2. split; [done|]. split; [by apply Forall_app|auto]. }
  unfold proceed.
  destruct (validate_stage E f role.1) as [Ht3 Hr3].
  destruct (validate E f role.1) as [t3 [o3|m]]; simpl in *.
  { left. subst o3. split; [done|].
    split; [by repeat (apply Forall_app; split)|auto]. }
  destruct Hr3 as (Hm & Hrange & Hval & Hchk).
  pose (c := {| asClient := role.1; directory := role.2; proxyMode := m;
                optionsString := opts |}).
  assert (settles E f c) as Hc by (unfold settles; simpl; by repeat split).
  destruct (launch_launched E f c Hrange)
    as [(Hl & Hr & _)|(pre & e & Heq & Hpre & He)]; simpl in *.
  - left. destruct (launch E f role.1 role.2 opts m) as [t4 r4].
    simpl in *. subst r4. split; [done|].
    split; [by repeat (apply Forall_app; split)|auto].
  - right. exists c, (t1 ++ t2 ++ t3 ++ pre), e.
    split; [done|]. split; [by repeat (apply Forall_app; split)|].
    split; [done|]. rewrite Heq. unfold serve. simpl.
    destruct (launchedBy E e); simpl.
    + destruct (exitOnStdinClose f); simpl;
        by rewrite ?app_nil_r, <- ?app_assoc.
    + by rewrite ?app_nil_r, <- ?app_assoc.
Qed.

Lemma launchedBy_setup E e : launchedBy E e = true -> ~ notSetup e.
Proof. destruct e; simpl; try done; by intros _ []. Qed.

Lemma configured_setup E f c e : configured E f c e -> ~ notSetup e.
Proof. destruct e; simpl; tauto. Qed.

Lemma elem_of_setup pre (e e' : event) post :
  Forall notSetup pre -> Forall notSetup post -> ~ notSetup e' ->
  e' ∈ pre ++ e :: post -> e' = e.
Proof.
  intros Hpre Hpost He' Hin.
  rewrite elem_of_app, elem_of_cons in Hin. rewrite Forall_forall in Hpre, Hpost.
  destruct Hin as [Hin|[->|Hin]]; [|done|].
  - by destruct He'; apply Hpre.
  - by destruct He'; apply Hpost.
Qed.

(** ** How a run ends *)













(** X17. The process serves exactly when the setup of a front-end was
    called and returned true, and it serves until its standard input is
    closed exactly when it serves with [-exit-on-stdin-close].  It ends
    in [os.Exit(-1)] without serving exactly when a setup was called and
    returned false; as a process serving until its standard input is
    closed ends in [os.Exit(-1)] as well, the code -1 is the one of the
    runs that called a setup which returned false or which were asked to
    end with their standard input.  No run calls a setup twice. *)
Theorem main_serves_iff_launched E f :
  (serving (main E f).2 <->
   exists e, e ∈ (main E f).1 /\ launchedBy E e = true) /\
  ((main E f).2 = ServeUntilStdinCloses <->
   exitOnStdinClose f = true /\ serving (main E f).2) /\
  ((main E f).2 = Exit (-1) <->
   exists e, e ∈ (main E f).1 /\ ~ notSetup e /\ launchedBy E e = false) /\
  (exitCode (main E f).2 = Some (-1) <->
   exists e, e ∈ (main E f).1 /\ ~ notSetup e /\
     (launchedBy E e = false \/ exitOnStdinClose f = true)) /\
  (forall e1 e2, e1 ∈ (main E f).1 -> e2 ∈ (main E f).1 ->
     ~ notSetup e1 -> ~ notSetup e2 -> e1 = e2).
Proof.
  unfold serving.
  destruct (main_shape E f)
    as [[Hv Hr]|[(Hv & Hall & Hr)|(c & pre & e & Hc & Hpre & He & Hr)]].
  - rewrite Hr. simpl. repeat split.
    + intros [?|?]; done.
    + intros (e & ->%list_elem_of_singleton & ?). done.
    + done.
    + done.
    + intros [_ [?|?]]; done.
    + done.
    + intros (e & ->%list_elem_of_singleton & He & _). by destruct He.
    + done.
    + intros (e & ->%list_elem_of_singleton & He & _). by destruct He.
    + intros e1 e2 ->%list_elem_of_singleton. by intros _ [].
  - rewrite Forall_forall in Hall. repeat split.
    + intros [H|H]; destruct Hr as [Hr|Hr]; congruence.
    + intros (e & Hin & He). by destruct (launchedBy_setup E e He); apply Hall.
    + destruct Hr as [Hr|Hr]; congruence.
    + destruct Hr as [Hr|Hr]; congruence.
    + intros [_ [H|H]]; destruct Hr as [Hr|Hr]; congruence.
    + intros H. destruct Hr as [Hr|Hr]; congruence.
    + intros (e & Hin & He & _). by destruct He; apply Hall.
    + destruct Hr as [Hr|Hr]; rewrite Hr; done.
    + intros (e & Hin & He & _). by destruct He; apply Hall.
    + intros e1 e2 Hin _ He1. by destruct He1; apply Hall.
  - pose proof (configured_setup E f c e He) as Hs.
    assert (forall post e', Forall notSetup post -> e' ∈ pre ++ e :: post ->
              ~ notSetup e' -> e' = e) as Hone.
    { intros post e' Hpost Hin He'. by apply (elem_of_setup pre e e' post). }
    assert (forall post, e ∈ pre ++ e :: post) as Hin.
    { intros post. rewrite elem_of_app, elem_of_cons. auto. }
    destruct (launchedBy E e) eqn:Hl; rewrite Hr; simpl.
    + split; [|split; [|split; [|split]]].
      * split; intros _; [by exists e|]. destruct (exitOnStdinClose f); auto.
      * destruct (exitOnStdinClose f); split; try done; auto.
        by intros [? _].
      * split; [by destruct (exitOnStdinClose f)|].
        intros (e' & Hin' & He' & Hl').
        apply Hone in Hin'; [congruence|by repeat constructor|done].
      * split.
        -- destruct (exitOnStdinClose f); simpl; [|done].
           intros _. exists e. auto.
        -- intros (e' & Hin' & He' & [Hl'|Hx]); [|by rewrite Hx].
           apply Hone in Hin'; [congruence|by repeat constructor|done].
      * intros e1 e2 H1 H2 He1 He2.
        apply Hone in H1; [|by repeat constructor|done].
        apply Hone in H2; [|by repeat constructor|done].
        congruence.
    + split; [|split; [|split; [|split]]].
      * split; [by intros [?|?]|]. intros (e' & Hin' & Hl').
        apply (Hone []) in Hin'; [congruence|done|].
        by apply launchedBy_setup in Hl'.
      * split; [done|]. by intros [_ [?|?]].
      * split; [|done]. intros _. exists e. auto.
      * split; [|done]. intros _. exists e. auto.
      * intros e1 e2 H1 H2 He1 He2.
        apply (Hone []) in H1; [|done|done].
        apply (Hone []) in H2; [|done|done].
        congruence.
Qed.



(** ** The server's configuration *)

(** X19. A [-bindaddr] the parser rejects does not stop a server: the
    error is logged, and the setup of the front-end is still called,
    with a configuration that has no bind address, no backend address
    and no cookie. *)
Theorem launch_after_bindaddr_error E f c err :
  asClient c = false -> 0 <= proxyMode c <= 3 ->
  (getServerBindaddrs E (bindAddr f) (optionsString c)
     (Some (transportsList f))).2 = inr err ->
  exists pre,
    launch E f false (directory c) (optionsString c) (proxyMode c)
    = (pre ++ [ServerSetupCall (proxyMode c) zeroServerInfo (directory c)
                 (optionsString c)],
       inr (ServerSetup E (proxyMode c) zeroServerInfo (directory c)
              (optionsString c))) /\
    Log Error err ∈ pre /\ Forall notSetup pre.
Proof.
  intros Hc Hmode Herr.
  destruct (launch_launched E f c Hmode)
    as [(_ & _ & Hc')|(pre & e & Heq & Hpre & He)]; [congruence|].
  rewrite Hc in Heq.
  assert (getServerInfo E (bindAddr f) (optionsString c) (transportsList f)
            (target f) (extorport f) (authcookie f)
          = ((getServerBindaddrs E (bindAddr f) (optionsString c)
                (Some (transportsList f))).1
               ++ [Log Error err;
                   Log Error (Msg "Error parsing bindaddrs %q %q %q"
                                  [bindAddr f; optionsString c;
                                   transportsList f])],
             zeroServerInfo)) as Hinfo.
  { unfold getServerInfo.
    destruct (getServerBindaddrs E (bindAddr f) (optionsString c)
                (Some (transportsList f))) as [evs [bs|err']];
      simpl in Herr; [done|]. by injection Herr as ->. }
  destruct e; simpl in He; try done; [destruct He; congruence|].
  destruct He as (_ & -> & -> & -> & ->). rewrite Hinfo in Heq. simpl in Heq.
  exists pre. split; [exact Heq|]. split; [|done].
  (* the error line is among the events of [getServerInfo] *)
  revert Heq. unfold launch, launchServer, golog_Infof, emit.
  rewrite Hinfo. simpl.
  destruct (proxyMode c) as [|[[|[]|]|[]|]|]; try lia; simpl;
    intros [= Heq]; apply (f_equal (fun l => removelast l)) in Heq.
  all: rewrite removelast_last in Heq; rewrite <- Heq.
  all: rewrite ?app_comm_cons, ?app_assoc, removelast_last.
  all: rewrite !elem_of_app, !elem_of_cons; auto 10.
Qed.

Lemma launch_after_bindaddr_error_witness :
  let f := Sample.serverFlags "shadow" "shadow" "127.0.0.1:3333" in
  exists pre,
    launch Sample.env f false "state" EmptyString transparentTCP
    = (pre ++ [ServerSetupCall transparentTCP zeroServerInfo "state"
                 EmptyString],
       inr (ServerSetup Sample.env transparentTCP zeroServerInfo "state"
              EmptyString)) /\
    Log Error (noSeparator "shadow") ∈ pre /\ Forall notSetup pre.
Proof.
  apply (launch_after_bindaddr_error Sample.env
           (Sample.serverFlags "shadow" "shadow" "127.0.0.1:3333")
           {| asClient := false; directory := "state"; proxyMode := transparentTCP;
              optionsString := EmptyString |}
           (noSeparator "shadow") eq_refl ltac:(by vm_compute) eq_refl).
Defined.

(** X20. The configuration [getServerInfo] returns is never half
    filled the wrong way round: an extended backend address is there
    only with a backend address and an [-extorport], the cookie path is
    the one given and is there only with a backend address, and the
    bind addresses are the ones [getServerBindaddrs] returns, or none
    when it fails. *)
Theorem getServerInfo_fields E bindaddrList options transportList target
    extorport authcookie :
  let info := (getServerInfo E bindaddrList options transportList target
                 extorport authcookie).2 in
  (ExtendedOrAddr info <> None ->
     OrAddr info <> None /\ extorport <> EmptyString) /\
  (OrAddr info = None ->
     AuthCookiePath info = EmptyString /\ ExtendedOrAddr info = None) /\
  (forall orAddr, OrAddr info = Some orAddr ->
     AuthCookiePath info = authcookie /\ ResolveAddr E target = inl orAddr) /\
  match (getServerBindaddrs E bindaddrList options (Some transportList)).2 with
  | inl bindaddrs => Bindaddrs info = bindaddrs
  | inr _ => info = zeroServerInfo
  end.
Proof.
  unfold getServerInfo.
  destruct (getServerBindaddrs E bindaddrList options (Some transportList))
    as [evs [bs|err]]; simpl; [|done].
  destruct (ResolveAddr E target) as [orAddr|err] eqn:Ht; simpl; [|done].
  destruct (decide (extorport = EmptyString)) as [Hx|Hx];
    destruct (decide (authcookie = EmptyString)) as [Ha|Ha]; simpl;
    try destruct (ResolveAddr E extorport); simpl; rewrite ?Ha;
    repeat split; first [ done | congruence ].
Qed.

(** ** The errors of getServerBindaddrs *)

(** X21. [getServerBindaddrs] fails, whatever the transports are: with
    the error on [-options] when the options do not parse, whatever
    [-bindaddr] holds; and, the options parsed, with the error on the
    empty entry when [-bindaddr] is empty, and with the error of the
    resolver, which carries the entry, on the first entry whose address
    does not resolve, the ones before it well formed. *)
Theorem getServerBindaddrs_errors E options transports :
  (forall bindaddrList err,
     options <> EmptyString -> ParsePT2ServerParameters E options = inr err ->
     (getServerBindaddrs E bindaddrList options transports).2
     = inr (Msg "-options: %q: %s" (options :: format err :: args err))) /\
  (forall optionsMap, optionsParsed E options optionsMap ->
     (getServerBindaddrs E EmptyString options transports).2
     = inr (noSeparator EmptyString)) /\
  (forall optionsMap good bas bad part0 part1 rest err,
     optionsParsed E options optionsMap ->
     Forall (fun s => Go.occurs "," s = false) (good ++ bad :: rest) ->
     Forall2 (wellFormed E optionsMap) good bas ->
     Go.cut bad "-" = Some (part0, part1) -> ResolveAddr E part1 = inr err ->
     (getServerBindaddrs E (Go.strings_Join (good ++ bad :: rest) ",") options
        transports).2
     = inr (Msg "-bindaddr: %q: %s" (bad :: format err :: args err))).
Proof.
  repeat apply conj.
  - intros bindaddrList err Ho Hp. unfold getServerBindaddrs.
    destruct (decide (options = EmptyString)); [done|]. by rewrite Hp.
  - intros optionsMap Hopt. unfold getServerBindaddrs.
    destruct Hopt as [[-> ->]|[Ho Hp]]; simpl; [done|].
    destruct (decide (options = EmptyString)); [done|]. by rewrite Hp.
  - intros optionsMap good bas bad part0 part1 rest err Hopt Hcomma Hgood
      Hcut Hres.
    assert (bindaddrsLoop E optionsMap (good ++ bad :: rest) []
            = inr (Msg "-bindaddr: %q: %s" (bad :: format err :: args err)))
      as Hloop.
    { eapply bindaddrsLoop_first_failure; [exact Hgood|].
      unfold bindaddrOfSpec, Go.strings_SplitN2. by rewrite Hcut, Hres. }
    assert (good ++ bad :: rest <> []) as Hne
      by (destruct good; simpl; discriminate).
    unfold getServerBindaddrs.
    rewrite (strings_Split_Join _ _ Hne Hcomma).
    destruct Hopt as [[-> ->]|[Ho Hp]]; simpl.
    + by rewrite Hloop.
    + destruct (decide (options = EmptyString)); [done|].
      by rewrite Hp, Hloop.
Qed.

Lemma getServerBindaddrs_errors_witness :
  (getServerBindaddrs Sample.env EmptyString EmptyString (Some "shadow")).2
  = inr (noSeparator EmptyString).
Proof.
  apply (proj1 (proj2 (getServerBindaddrs_errors Sample.env EmptyString
                         (Some "shadow")))
               ∅ (or_introl (conj eq_refl eq_refl))).
Defined.

(** ** The client's names *)

Lemma strings_Split_length s c :
  length (Go.strings_Split s c) = S (Go.count c s).
Proof.
  induction s as [|d s IH]; simpl; [done|].
  destruct (Ascii.eqb d c); simpl; [by rewrite IH|].
  destruct (Go.strings_Split s c); simpl in *; [done|lia].
Qed.

(** X22. With both flags given [getClientNames] fails exactly when the
    upstream proxy cannot be read, never looks at the protocol version,
    tells the proxy is taken exactly when there is one, and returns the
    transports compiled in for [*] and otherwise one name more than
    [-transports] has commas: an empty [-transports] is one empty
    name. *)
Theorem getClientNames_names E version transportsList proxy :
  let r := getClientNames E (Some version) (Some transportsList) proxy in
  (forall version', getClientNames E (Some version') (Some transportsList) proxy
                    = r) /\
  (forall err, r.2 = inr err <-> PtGetProxy E proxy = inr err) /\
  (forall u names, r.2 = inl (u, names) ->
     PtGetProxy E proxy = inl u /\
     (r.1 = match u with Some _ => [PtProxyDone] | None => [] end) /\
     (transportsList = "*" -> names = Transports E) /\
     (transportsList <> "*" ->
        names = Go.strings_Split transportsList "," /\
        length names = S (Go.count "," transportsList))).
Proof.
  unfold getClientNames. repeat apply conj.
  - done.
  - intros err. destruct (decide (transportsList = "*"));
      destruct (PtGetProxy E proxy) as [[u|]|perr]; simpl; split; congruence.
  - intros u names.
    destruct (decide (transportsList = "*")) as [Hs|Hs];
      destruct (PtGetProxy E proxy) as [[u'|]|perr]; simpl;
      intros [= <- <-]; repeat split; try done;
      first [ apply strings_Split_length
            | intros _; apply strings_Split_length ].
Qed.

(** ** Flags without effect *)

(** X23. [-enableLogging] and [-ptversion] have no effect: the run is
    the same whatever their values are. *)
Theorem main_ignores_logging_flags E f logging version :
  main E (withLogging f logging version) = main E f.
Proof. reflexivity. Qed.

End MainExtra.

(* ===================================================================== *)
(** ** More on package pt_socks5 *)
(* ===================================================================== *)

Module Socks5Extra.

Import Dispatcher PtSocks5 Socks5Spec.

(** ** ServerSetup *)

Lemma Get_present args key :
  present args key <-> exists v vs, args !! key = Some (v :: vs).
Proof.
  unfold present, Args.Get. destruct (args !! key) as [[|v vs]|]; simpl.
  - split; [done|]. by intros (? & ? & ?).
  - split; [eauto|done].
  - split; [done|]. by intros (? & ? & ?).
Qed.

(** X14. For the transports other than obfs4 the switch of [ServerSetup]
    binds a listener exactly when the name is one it knows and each
    parameter the transport requires has a value in the options. *)
Theorem transportOfName_required name args :
  name <> "obfs4" ->
  (exists t, (transportOfName name args).2 = Bound t) <->
  exists keys, required name = Some keys /\ Forall (present args) keys.
Proof.
  intros Hn. unfold transportOfName, required, present.
  repeat (case_decide; [subst; try done|]); simpl;
    repeat match goal with
      | |- context [match Args.Get ?a ?k with _ => _ end] =>
          let ok := fresh "ok" in
          destruct (Args.Get a k) as [? ok] eqn:?; destruct ok; simpl
      end;
    (split;
     [ intros [t Ht]; try done; eexists; (split; [reflexivity|]);
       rewrite ?Forall_cons, Forall_nil; simpl;
       repeat match goal with H : Args.Get _ _ = _ |- _ => rewrite H end;
       simpl; by repeat split
     | intros (keys & Hk & Hall); simplify_eq/=;
       rewrite ?Forall_cons, ?Forall_nil in Hall; simpl in Hall;
       repeat match goal with
              | H : Args.Get _ _ = _ |- _ => rewrite H in Hall; clear H
              end;
       simpl in Hall;
       first [ by eexists | intuition congruence ] ]).
Qed.

Section Server.

Variable ParsePT2ClientParameters : string -> Args.t + error.

Lemma transportOfName_not_done name args :
  Forall (fun e => isSmethodsDone e = false) (transportOfName name args).1.
Proof.
  unfold transportOfName, Args.Get.
  repeat (case_match; simpl; try done); repeat constructor.
Qed.

Lemma serverSetupLoop_done options args bas launched listeners :
  ParsePT2ClientParameters options = inl args ->
  existsb isSmethodsDone
    (serverSetupLoop ParsePT2ClientParameters bas options launched listeners).1
  = true <->
  Forall (fun ba => is_Some (listenerOf args ba)) bas.
Proof.
  intros Hp. revert launched listeners.
  induction bas as [|ba bas IH]; intros launched listeners.
  - simpl. split; [by constructor|done].
  - rewrite Forall_cons. unfold listenerOf at 1.
    pose proof (transportOfName_not_done (MethodName ba) args) as Hnd.
    destruct (transportOfName (MethodName ba) args).2 as [t| | |] eqn:Ht.
    + rewrite (serverSetupLoop_cons_Bound _ _ _ _ _ _ _ _ Hp Ht).
      cbv zeta. simpl fst. rewrite existsb_app. simpl.
      rewrite <- IH.
      replace (existsb isSmethodsDone (transportOfName (MethodName ba) args).1)
        with false.
      * simpl. split; [intros H; split; [by eexists|exact H]|by intros [_ H]].
      * symmetry. apply not_true_is_false. intros He.
        apply existsb_exists in He as (e & Hin & He).
        rewrite Forall_forall in Hnd. apply list_elem_of_In in Hin.
        specialize (Hnd _ Hin). congruence.
    + simpl. rewrite Hp.
      destruct (transportOfName (MethodName ba) args) as [evs br].
      simpl in Ht, Hnd. subst br. simpl. split.
      * intros He. apply existsb_exists in He as (e & Hin & He).
        rewrite Forall_forall in Hnd. apply list_elem_of_In in Hin.
        specialize (Hnd _ Hin). congruence.
      * by intros [[? ?] _].
    + simpl. rewrite Hp.
      destruct (transportOfName (MethodName ba) args) as [evs br].
      simpl in Ht, Hnd. subst br. simpl. split.
      * intros He. apply existsb_exists in He as (e & Hin & He).
        rewrite Forall_forall in Hnd. apply list_elem_of_In in Hin.
        specialize (Hnd _ Hin). congruence.
      * by intros [[? ?] _].
    + simpl. rewrite Hp.
      destruct (transportOfName (MethodName ba) args) as [evs br].
      simpl in Ht, Hnd. subst br. simpl. split.
      * intros He. apply existsb_exists in He as (e & Hin & He).
        rewrite Forall_forall in Hnd. apply list_elem_of_In in Hin.
        specialize (Hnd _ Hin). congruence.
      * by intros [[? ?] _].
Qed.

Lemma transportOfName_valued name args :
  valued args -> (transportOfName name args).2 <> Panic.
Proof.
  intros Hv. unfold transportOfName, Args.Get.
  repeat (case_match; simpl; try done); subst;
    match goal with H : _ !! _ = Some [] |- _ => by apply Hv in H end.
Qed.

Lemma serverSetupLoop_valued options bas launched listeners :
  (forall args, ParsePT2ClientParameters options = inl args -> valued args) ->
  (serverSetupLoop ParsePT2ClientParameters bas options launched listeners).2
  <> Panicked.
Proof.
  intros Hv. revert launched listeners.
  induction bas as [|ba bas IH]; intros launched listeners; simpl; [done|].
  destruct (ParsePT2ClientParameters options) as [args|err] eqn:Hp; [|done].
  pose proof (transportOfName_valued (MethodName ba) args (Hv _ eq_refl)) as Hn.
  destruct (transportOfName (MethodName ba) args) as [evs [t| | |]];
    simpl in *; try done.
  specialize (IH true (listeners ++ [TransportListener t (Addr ba)])).
  by destruct (serverSetupLoop _ bas options true _).
Qed.

End Server.

(** X12. With options that parse, [ServerSetup] tells the PT status
    protocol that its announcements are done exactly when every bind
    address resolves: a setup that a bind address ends says nothing. *)
Theorem ServerSetup_done ParsePT2ClientParameters info options args :
  ParsePT2ClientParameters options = inl args ->
  existsb isSmethodsDone (ServerSetup ParsePT2ClientParameters info options).1
  = true <->
  Forall (fun ba => is_Some (listenerOf args ba)) (Bindaddrs info).
Proof. intros Hp. by apply serverSetupLoop_done. Qed.

(** X13. [ServerSetup] does not panic when the options, if they parse,
    have a value for every key they hold: the two indexings of the
    obfs4 branch are the only ones. *)
Theorem ServerSetup_no_panic ParsePT2ClientParameters info options :
  (forall args, ParsePT2ClientParameters options = inl args -> valued args) ->
  (ServerSetup ParsePT2ClientParameters info options).2 <> Panicked.
Proof. intros Hv. by apply serverSetupLoop_valued. Qed.

(** X5. When the bind addresses before one resolve and that one ends
    the switch in [return false, nil], [ServerSetup] returns false and no
    listeners, with the accept loops of the ones before it started. *)
Theorem ServerSetup_false_nil ParsePT2ClientParameters info options args
    good lns bad rest :
  ParsePT2ClientParameters options = inl args ->
  Bindaddrs info = good ++ bad :: rest ->
  Forall2 (fun ba ln => listenerOf args ba = Some ln) good lns ->
  (transportOfName (MethodName bad) args).2 = ReturnFalseNil ->
  let r := ServerSetup ParsePT2ClientParameters info options in
  r.2 = Return false [] /\ acceptLoops r.1 = lns.
Proof.
  intros Hp Hb Hgood Hbad r. subst r. unfold ServerSetup. rewrite Hb.
  assert (listenerOf args bad = None) as Hn
    by (unfold listenerOf; by rewrite Hbad).
  destruct (serverSetupLoop_first_failure ParsePT2ClientParameters options
              args good lns bad rest false [] Hp Hgood Hn) as [Hev _].
  split; [|exact Hev]. clear Hev Hn Hb.
  assert (forall launched listeners,
    (serverSetupLoop ParsePT2ClientParameters (good ++ bad :: rest) options
       launched listeners).2 = Return false []) as Hall; [|apply Hall].
  induction Hgood as [|ba ln good lns Hln _ IH]; intros launched listeners.
  - simpl. rewrite Hp.
    destruct (transportOfName (MethodName bad) args) as [evs br].
    simpl in Hbad. by subst br.
  - unfold listenerOf in Hln.
    destruct (transportOfName (MethodName ba) args).2 as [t| | |] eqn:Ht;
      try done.
    rewrite <- app_comm_cons.
    rewrite (serverSetupLoop_cons_Bound _ _ _ _ _ _ _ _ Hp Ht).
    cbv zeta. simpl snd. apply IH.
Qed.

Lemma ServerSetup_false_nil_witness :
  let ln := TransportListener Obfs2Transport (SampleNet.local 2223) in
  let r := ServerSetup SampleNet.noArgs
             (SampleNet.serverInfo [SampleNet.bindaddr "obfs2" 2223;
                                    SampleNet.bindaddr "shadow" 2222])
             EmptyString in
  r.2 = Return false [] /\ acceptLoops r.1 = [ln].
Proof.
  apply (ServerSetup_false_nil SampleNet.noArgs
           (SampleNet.serverInfo [SampleNet.bindaddr "obfs2" 2223;
                                  SampleNet.bindaddr "shadow" 2222])
           EmptyString ∅ [SampleNet.bindaddr "obfs2" 2223]
           [TransportListener Obfs2Transport (SampleNet.local 2223)]
           (SampleNet.bindaddr "shadow" 2222) [] eq_refl eq_refl).
  - constructor; [reflexivity|constructor].
  - reflexivity.
Defined.

Lemma ServerSetup_done_witness :
  existsb isSmethodsDone
    (ServerSetup SampleNet.noArgs
       (SampleNet.serverInfo [SampleNet.bindaddr "obfs2" 2223]) EmptyString).1
  = true.
Proof.
  apply (proj2 (ServerSetup_done SampleNet.noArgs
                  (SampleNet.serverInfo [SampleNet.bindaddr "obfs2" 2223])
                  EmptyString ∅ eq_refl)).
  constructor; [by eexists|constructor].
Defined.

Lemma ServerSetup_no_panic_witness :
  (ServerSetup SampleNet.obfs4Args
     (SampleNet.serverInfo [SampleNet.bindaddr "obfs4" 2222])
     "cert=AAAA;iat-mode=0").2 <> Panicked.
Proof.
  apply (ServerSetup_no_panic SampleNet.obfs4Args
           (SampleNet.serverInfo [SampleNet.bindaddr "obfs4" 2222])
           "cert=AAAA;iat-mode=0").
  intros args [= <-] key.
  destruct (decide (key = "cert")) as [->|Hc]; [by vm_compute|].
  rewrite lookup_insert_ne by done.
  destruct (decide (key = "iat-mode")) as [->|Hi]; [by vm_compute|].
  by rewrite lookup_insert_ne, lookup_empty.
Defined.

(** An obfs4 bind address whose [iat-mode] is there without a value:
    the setup panics on the index. *)
Lemma ServerSetup_obfs4_panics :
  ServerSetup (fun _ => inl (<["cert" := ["AAAA"]]> (<["iat-mode" := []]> ∅)))
    (SampleNet.serverInfo [SampleNet.bindaddr "obfs4" 2222]) "cert=AAAA"
  = ([], Panicked).
Proof. vm_compute; reflexivity. Qed.

Lemma transportOfName_required_witness :
  exists t,
    (transportOfName "shadow"
       (<["password" := ["secret"]]> (<["cipherName" := ["aes-256"]]> ∅))).2
    = Bound t.
Proof.
  apply (proj2 (transportOfName_required "shadow"
                  (<["password" := ["secret"]]>
                     (<["cipherName" := ["aes-256"]]> ∅))
                  ltac:(discriminate))).
  exists ["password"; "cipherName"]. split; [reflexivity|].
  repeat constructor.
Defined.

(** ** ClientSetup *)

Section Client.

Variable World : Type.
Variable net_Listen : string -> World -> (Listener + error) * World.

Lemma clientSetupLoop_accounts socksAddr proxy names options w launched
    listeners :
  let '(evs, (_, listeners'), _) :=
    clientSetupLoop World net_Listen socksAddr proxy names options w
      launched listeners in
  (length listeners' + length (failures evs)
   = length listeners + length names)%nat /\
  cmethodsDone evs = 1%nat.
Proof.
  revert w launched listeners.
  induction names as [|name rest IH]; intros w launched listeners; simpl.
  - split; [lia|done].
  - destruct (net_Listen socksAddr w) as [[ln|err] w'].
    + specialize (IH w' true (listeners ++ [ln])).
      destruct (clientSetupLoop _ _ _ _ rest _ w' true _)
        as [[evs [l' ls']] w'']. simpl.
      rewrite length_app in IH. simpl in IH. split; [lia|apply IH].
    + specialize (IH w' launched listeners).
      destruct (clientSetupLoop _ _ _ _ rest _ w' launched _)
        as [[evs [l' ls']] w'']. simpl. split; [lia|apply IH].
Qed.

End Client.

(** X15. [ClientSetup] accounts for every name: the listeners it returns
    and the names it reports as failed are as many as the names it was
    given, and it tells the PT status protocol once that its
    announcements are done, also when there is no name at all. *)
Theorem ClientSetup_accounts World net_Listen socksAddr proxy names options
    (w : World) :
  let '(evs, (_, listeners), _) :=
    ClientSetup World net_Listen socksAddr proxy names options w in
  (length listeners + length (failures evs) = length names)%nat /\
  cmethodsDone evs = 1%nat.
Proof.
  unfold ClientSetup.
  apply (clientSetupLoop_accounts World net_Listen socksAddr proxy names
           options w false []).
Qed.

(** ** The server's accept loop *)

Lemma serverHandlers_are_handlers name accepts :
  Forall (isServerHandler name) (serverHandlers name accepts).
Proof.
  induction accepts as [|[conn|err] accepts IH]; simpl; try done.
  constructor; [by exists conn|done].
Qed.

(** X6. The server's accept loop does nothing but launch handlers: on
    the first permanent error it returns, the handlers of the
    connections accepted before it launched, nothing logged and nothing
    closed, and what the listener would accept afterwards is not
    looked at. *)
Theorem serverAcceptLoop_only_handlers name ln before after :
  permanent ∉ before ->
  serverAcceptLoop name ln (before ++ permanent :: after)
  = (serverHandlers name before, Ended) /\
  Forall (isServerHandler name) (serverHandlers name before).
Proof.
  intros Hn. split; [|apply serverHandlers_are_handlers].
  induction before as [|a before IH]; [done|].
  apply not_elem_of_cons in Hn as [Ha Hn]. specialize (IH Hn).
  destruct a as [conn|[[]|]]; simpl in *;
    first [ done | by destruct Ha | by rewrite IH ].
Qed.

Lemma serverAcceptLoop_only_handlers_witness :
  serverAcceptLoop "obfs2" (TcpListener 0 "127.0.0.1:2222")
    ([Accepted 1%nat; AcceptFailed OtherError] ++ permanent :: [Accepted 2%nat])
  = ([GoServerHandler "obfs2" 1%nat], Ended) /\
  Forall (isServerHandler "obfs2")
    (serverHandlers "obfs2" [Accepted 1%nat; AcceptFailed OtherError]).
Proof.
  apply (serverAcceptLoop_only_handlers "obfs2"
           (TcpListener 0 "127.0.0.1:2222")
           [Accepted 1%nat; AcceptFailed OtherError] [Accepted 2%nat]).
  rewrite !not_elem_of_cons. repeat split; try discriminate.
  apply not_elem_of_nil.
Defined.

(** ** The handlers *)

(** X9. Whatever the handshake, the options, the proxy, the dial and the
    relay do, the client handler sends at most one reply and closes no
    connection; it enters the relay at most once, for its own
    connection, and only after the success reply was its one reply and
    could be sent; and it is left waiting in the relay only if it
    entered it. *)
Theorem clientHandler_invariants H name conn proxyURI options :
  let r := clientHandler H name conn proxyURI options in
  (length (replies r.1) <= 1)%nat /\
  (forall c, CloseConn c ∉ r.1) /\
  (length (relays r.1) <= 1)%nat /\
  (forall a b, (a, b) ∈ relays r.1 ->
     a = conn /\ replies r.1 = [ReplySucceeded] /\
     socksReq_Reply H ReplySucceeded = None) /\
  (r.2 = HandlerInRelay -> relays r.1 <> []).
Proof.
  unfold clientHandler.
  repeat (case_match; simpl; try done);
    (repeat apply conj;
     [ simpl; lia
     | intros ?; rewrite ?elem_of_cons, ?elem_of_nil; intuition discriminate
     | simpl; lia
     | intros ? ?; simpl; rewrite ?elem_of_cons, ?elem_of_nil;
       intros ?; intuition (simplify_eq; done)
     | done ]).
Qed.

(** X10. A connection whose handshake fails, or whose options do not
    parse, is left without any reply; one whose proxy dialer cannot be
    made gets the general failure as its one reply.  In none of the
    three is the relay entered. *)
Theorem clientHandler_early_failures H name conn proxyURI options :
  let r := clientHandler H name conn proxyURI options in
  (forall err,
     socks5_Handshake H conn (bool_decide (options = EmptyString)) = inr err ->
     replies r.1 = [] /\ relays r.1 = [] /\ r.2 = HandlerReturned) /\
  (forall socksReq err,
     socks5_Handshake H conn (bool_decide (options = EmptyString))
       = inl socksReq ->
     ParseOptions H options = inr err ->
     replies r.1 = [] /\ relays r.1 = [] /\ r.2 = HandlerReturned) /\
  (forall socksReq args u err,
     socks5_Handshake H conn (bool_decide (options = EmptyString))
       = inl socksReq ->
     ParseOptions H options = inl args ->
     proxyURI = Some u -> proxy_FromURL H u = inr err ->
     replies r.1 = [ReplyGeneralFailure] /\ relays r.1 = [] /\
     r.2 = HandlerReturned).
Proof.
  unfold clientHandler. repeat apply conj.
  - by intros err ->.
  - by intros socksReq err -> ->.
  - by intros socksReq args u err -> -> -> ->.
Qed.

Lemma clientHandler_early_failures_witness :
  let H := {|
    socks5_Handshake := fun _ _ => inr (Msg "unsupported SOCKS version" []);
    socksReq_Reply := socksReq_Reply SampleNet.refusing;
    ErrorToReplyCode := ErrorToReplyCode SampleNet.refusing;
    ParseOptions := ParseOptions SampleNet.refusing;
    ArgsToDialer := ArgsToDialer SampleNet.refusing;
    proxy_FromURL := proxy_FromURL SampleNet.refusing;
    transport_Dial := transport_Dial SampleNet.refusing;
    copyLoop_end := copyLoop_end SampleNet.refusing |} in
  let r := clientHandler H "obfs2" 7%nat None "cert=AAAA" in
  replies r.1 = [] /\ relays r.1 = [] /\ r.2 = HandlerReturned.
Proof.
  intros H.
  apply (proj1 (clientHandler_early_failures H "obfs2" 7%nat None "cert=AAAA")
               (Msg "unsupported SOCKS version" []) eq_refl).
Defined.

(** X11. The server handler enters the relay exactly when the bridge to
    the backend is made, once, with the backend connection first and the
    accepted connection second; it closes no connection, also when the
    bridge fails. *)
Theorem serverHandler_relays DialOr copyLoop_end name remote info :
  let r := serverHandler DialOr copyLoop_end name remote info in
  (forall c, CloseConn c ∉ r.1) /\
  relays r.1 =
    match DialOr info remote name with
    | inl orConn => [(orConn, remote)]
    | inr _ => []
    end.
Proof.
  unfold serverHandler.
  repeat (case_match; simpl; try done);
    (repeat apply conj; try done;
     intros ?; rewrite ?elem_of_cons, ?elem_of_nil; intuition discriminate).
Qed.

Lemma transportOfName_obfs4_witness :
  transportOfName "obfs4"
    (<["cert" := ["AAAA"]]> (<["iat-mode" := ["fast"]]> ∅))
  = ([], Bound (Obfs4Client "AAAA" 0)).
Proof.
  apply (transportOfName_obfs4
           (<["cert" := ["AAAA"]]> (<["iat-mode" := ["fast"]]> ∅))
           "AAAA" [] "fast" [] ltac:(by vm_compute) ltac:(by vm_compute)).
Defined.

(** ** The channel of copyLoop *)

Lemma gstep_sent g ch k g' ch' k' m :
  gstep g ch k g' ch' k' ->
  length ch = (sent g + m)%nat -> length ch' = (sent g' + m)%nat.
Proof. destruct 1; simpl; try done. rewrite length_app. simpl. lia. Qed.

Lemma buffered_step s s' : buffered s -> step s s' -> buffered s'.
Proof.
  intros (Hc & Hlen & Hret) Hs. split; [by eapply counted_step|].
  destruct Hs as [s g ch k Hr Hg|s g ch k Hr Hg|s Hr Hw]; simpl.
  - split; [|done]. intros _.
    by apply (gstep_sent _ _ _ _ _ _ _ Hg), Hlen.
  - split; [|done]. intros _. rewrite Nat.add_comm.
    apply (gstep_sent _ _ _ _ _ _ _ Hg). rewrite (Hlen Hr). lia.
  - split; [done|]. intros _. specialize (Hlen Hr).
    unfold counted in Hc. rewrite Hw in Hc.
    destruct (ab s), (ba s), (errChan s) as [|e1 [|e2 ch]];
      simpl in *; try done; lia.
Qed.

(** X8. In every run of [copyLoop] the channel never holds more than the
    two values it has room for, so no send waits; when the caller gets
    past [wg.Wait()] it holds both results, so the caller always
    receives and the closing [return nil] is never reached; and one
    result is left in the channel when the call has returned. *)
Theorem copyLoop_channel a2b b2a s :
  steps (start a2b b2a) s ->
  (length (errChan s) <= 2)%nat /\
  (returned s = None -> wg s = 0%nat -> length (errChan s) = 2%nat) /\
  (returned s <> None -> length (errChan s) = 1%nat).
Proof.
  intros Hrun.
  assert (buffered s) as (Hc & Hlen & Hret).
  { eapply (steps_invariant buffered); [apply buffered_step|exact Hrun|].
    split; [reflexivity|]. split; [done|done]. }
  repeat apply conj.
  - destruct (returned s) eqn:Hr.
    + rewrite Hret by done. lia.
    + rewrite Hlen by done. destruct (ab s), (ba s); simpl; lia.
  - intros Hr Hw. rewrite (Hlen Hr). unfold counted in Hc. rewrite Hw in Hc.
    destruct (ab s), (ba s); simpl in *; lia.
  - exact Hret.
Qed.

Lemma copyLoop_channel_witness :
  let eof := {| chunks := 0; ending := Returns None |} in
  let s := schedule [true; true; false; false] (start eof eof) in
  (length (errChan s) <= 2)%nat /\
  (returned s = None -> wg s = 0%nat -> length (errChan s) = 2%nat) /\
  (returned s <> None -> length (errChan s) = 1%nat).
Proof.
  apply (copyLoop_channel {| chunks := 0; ending := Returns None |}
           {| chunks := 0; ending := Returns None |}
           (schedule [true; true; false; false]
              (start {| chunks := 0; ending := Returns None |}
                     {| chunks := 0; ending := Returns None |}))
           (schedule_steps _ _)).
Defined.

End Socks5Extra.
